(** * fluffd: the HTTP-to-Furby command bridge of bluefluff

    A shallow embedding of [fluffd/fluffd.js]: the HTTP request handler, the
    POST command handler [parsePostCommand], the two noble callbacks
    ([stateChange], [discover]) and the connect callback that fills the
    [furbies] object, followed by the properties of the device registry and
    of command dispatch.

    JavaScript values are modelled as far as the handlers look at them: the
    values [JSON.parse] can return, string conversion (which can throw), the
    [in] operator on the [furbies] object (which consults [Object.prototype])
    and exceptions caught by the handler's [try]/[catch].  The texts of
    TypeError messages are those of V8.

    The modules [fluffcon], [fluffaction] and [furby] are collaborators:
    what they hand over is a parameter of the development, and what they
    do is an effect recorded in the log of the process. *)

From stdpp Require Import gmap strings.
From Stdlib Require Import Ascii.

Set Warnings "-register-all,-clear-no-such-hyp".

(** ** JavaScript values and conversions *)
Module Js.

(** A value returned by [JSON.parse].  A number is kept as the decimal
    rendering [Number::toString] gives it, which is the only view the
    handlers take of a number. *)
Inductive JsVal :=
| JNull
| JBool (b : bool)
| JNumber (repr : string)
| JString (s : string)
| JArray (elems : list JsVal)
| JObject (fields : list (string * JsVal)).

(** The exceptions the handlers can meet. *)
Inductive JsError :=
| SyntaxError (message : string)
| TypeError (message : string).

(** [String(e)] for an error object: [Error.prototype.toString]. *)
Definition error_to_string (e : JsError) : string :=
  let '(name, msg) :=
    match e with
    | SyntaxError m => ("SyntaxError", m)
    | TypeError m => ("TypeError", m)
    end in
  if String.eqb msg "" then name else name +:+ ": " +:+ msg.

(** The outcome of evaluating an expression: a value or a thrown error. *)
Inductive completion (A : Type) :=
| Normal (a : A)
| Throw (e : JsError).
Arguments Normal {A} a.
Arguments Throw {A} e.

(** Own data property of a parsed object.  [JSON.parse] keeps one property
    per key; the first binding of the list is the property. *)
Fixpoint assoc (key : string) (fields : list (string * JsVal)) : option JsVal :=
  match fields with
  | [] => None
  | (k, v) :: rest => if String.eqb k key then Some v else assoc key rest
  end.

Definition has_key (key : string) (fields : list (string * JsVal)) : bool :=
  match assoc key fields with Some _ => true | None => false end.

(** [ToString(v)], as string concatenation and property-key conversion apply
    it.  An object converts through [valueOf]/[toString]: the inherited
    [valueOf] returns the object itself, so the result is that of
    [toString]; an own property named [toString] parsed from JSON is never
    callable and hides [Object.prototype.toString], and then no method
    yields a primitive and a TypeError is thrown.  An array converts
    through [Array.prototype.join], where [null] elements are empty. *)
Fixpoint to_string (v : JsVal) : completion string :=
  match v with
  | JNull => Normal "null"
  | JBool b => Normal (if b then "true" else "false")
  | JNumber repr => Normal repr
  | JString s => Normal s
  | JArray elems =>
      (fix join (l : list JsVal) : completion string :=
         match l with
         | [] => Normal ""
         | x :: rest =>
             match (match x with JNull => Normal "" | _ => to_string x end) with
             | Throw e => Throw e
             | Normal s =>
                 match rest with
                 | [] => Normal s
                 | _ :: _ =>
                     match join rest with
                     | Throw e => Throw e
                     | Normal r => Normal (s +:+ "," +:+ r)
                     end
                 end
             end
         end) elems
  | JObject fields =>
      if has_key "toString" fields
      then Throw (TypeError "Cannot convert object to primitive value")
      else Normal "[object Object]"
  end.

(** [String(x)] where [x] may be [undefined] (a missing property). *)
Definition to_string_opt (x : option JsVal) : completion string :=
  match x with
  | None => Normal "undefined"
  | Some v => to_string v
  end.

(** [Type(v)] is Object: objects and arrays, the two structured types of
    JSON; the other parsed values are primitives. *)
Definition is_object (v : JsVal) : bool :=
  match v with
  | JArray _ | JObject _ => true
  | _ => false
  end.

(** [o.key] for a key that is no array index, not [length], and not a name
    on [Object.prototype] or [Array.prototype]: the own field of an object,
    [undefined] on an array. *)
Definition get_field (key : string) (o : JsVal) : option JsVal :=
  match o with
  | JObject fields => assoc key fields
  | _ => None
  end.

(** [key in o] for such a key: a TypeError unless [o] is an object. *)
Definition js_in (key : string) (o : JsVal) : completion bool :=
  match o with
  | JObject fields => Normal (has_key key fields)
  | JArray _ => Normal false
  | _ =>
      match to_string o with
      | Normal s =>
          Throw (TypeError ("Cannot use 'in' operator to search for '"
                              +:+ key +:+ "' in " +:+ s))
      | Throw e => Throw e
      end
  end.

(** The string-keyed properties of [Object.prototype], which every plain
    object created by [{}] inherits. *)
Definition Object_prototype_names : list string :=
  [ "constructor"; "__defineGetter__"; "__defineSetter__"; "hasOwnProperty";
    "__lookupGetter__"; "__lookupSetter__"; "isPrototypeOf";
    "propertyIsEnumerable"; "toString"; "valueOf"; "__proto__";
    "toLocaleString" ].

Definition inherited (key : string) : bool :=
  bool_decide (key ∈ Object_prototype_names).

(** *** State and exceptions

    A computation reads and updates a state and either returns or throws;
    the state reached at a throw is kept, as effects performed before an
    exception stay performed. *)
Definition M (S A : Type) : Type := S → completion A * S.

Definition ret {S A} (a : A) : M S A := λ s, (Normal a, s).
Definition throw {S A} (e : JsError) : M S A := λ s, (Throw e, s).
Definition bind {S A B} (m : M S A) (k : A → M S B) : M S B :=
  λ s, match m s with
       | (Normal a, s') => k a s'
       | (Throw e, s') => (Throw e, s')
       end.
Definition lift {S A} (c : completion A) : M S A := λ s, (c, s).
Definition gets {S A} (f : S → A) : M S A := λ s, (Normal (f s), s).
Definition modify {S} (f : S → S) : M S unit := λ s, (Normal tt, f s).

(** [try { body } catch (e) { handler e }] *)
Definition try_catch {S A} (body : M S A) (handler : JsError → M S A) : M S A :=
  λ s, match body s with
       | (Normal a, s') => (Normal a, s')
       | (Throw e, s') => handler e s'
       end.

(** [for (x of xs) body x] over a list fixed when the loop starts. *)
Fixpoint for_each {S X} (xs : list X) (body : X → M S unit) : M S unit :=
  match xs with
  | [] => ret tt
  | x :: rest => bind (body x) (λ _, for_each rest body)
  end.

(** *** A reference parser

    [JSON.parse] on the fragment of JSON without string escapes and without
    fractions or exponents, used to run the handlers on concrete request
    bodies.  Text outside the fragment is refused like text outside JSON. *)
Definition dquote : ascii := "034"%char.
Definition quoted (s : string) : string :=
  String dquote (s +:+ String dquote "").

Definition is_ws (c : ascii) : bool :=
  bool_decide (c ∈ [" "%char; "009"%char; "010"%char; "013"%char]).
Definition is_digit (c : ascii) : bool :=
  bool_decide (48 ≤ nat_of_ascii c ≤ 57).

Fixpoint skip_ws (s : list ascii) : list ascii :=
  match s with
  | c :: rest => if is_ws c then skip_ws rest else s
  | [] => []
  end.

Fixpoint take_digits (s : list ascii) : list ascii * list ascii :=
  match s with
  | c :: rest =>
      if is_digit c
      then let '(ds, r) := take_digits rest in (c :: ds, r)
      else ([], s)
  | [] => ([], [])
  end.

(** The characters of a string literal up to its closing quote. *)
Fixpoint take_chars (s : list ascii) : option (list ascii * list ascii) :=
  match s with
  | [] => None
  | c :: rest =>
      if Ascii.eqb c dquote then Some ([], rest)
      else if Ascii.eqb c "\"%char || bool_decide (nat_of_ascii c < 32) then None
      else '(cs, r) ← take_chars rest; Some (c :: cs, r)
  end.

Definition string_of (cs : list ascii) : string :=
  fold_right String EmptyString cs.
Fixpoint chars_of (s : string) : list ascii :=
  match s with
  | EmptyString => []
  | String c rest => c :: chars_of rest
  end.

Definition expect (word : string) (v : JsVal) (s : list ascii)
  : option (JsVal * list ascii) :=
  let w := chars_of word in
  if bool_decide (take (length w) s = w) then Some (v, drop (length w) s)
  else None.

(** An integer literal of at most 15 digits, exactly representable. *)
Definition parse_int (negative : bool) (s : list ascii)
  : option (JsVal * list ascii) :=
  let '(ds, r) := take_digits s in
  match ds with
  | [] => None
  | d :: more =>
      let leading_zero := Ascii.eqb d "0"%char && negb (bool_decide (more = [])) in
      let continues :=
        match r with
        | c :: _ => bool_decide (c ∈ ["."%char; "e"%char; "E"%char])
        | [] => false
        end in
      if leading_zero || continues || bool_decide (15 < length ds) then None
      else
        let zero := bool_decide (ds = ["0"%char]) in
        Some (JNumber (if negative && negb zero
                       then String "-"%char (string_of ds)
                       else string_of ds), r)
  end.

(** A repeated key keeps its place and takes the later value. *)
Fixpoint set_field (k : string) (v : JsVal) (fields : list (string * JsVal))
  : list (string * JsVal) :=
  match fields with
  | [] => [(k, v)]
  | (k', v') :: rest =>
      if String.eqb k' k then (k', v) :: rest else (k', v') :: set_field k v rest
  end.

Fixpoint parse_value (fuel : nat) (s : list ascii) {struct fuel}
  : option (JsVal * list ascii) :=
  match fuel with
  | 0 => None
  | S fuel =>
      match skip_ws s with
      | [] => None
      | c :: r =>
          if Ascii.eqb c "n"%char then expect "null" JNull (c :: r)
          else if Ascii.eqb c "t"%char then expect "true" (JBool true) (c :: r)
          else if Ascii.eqb c "f"%char then expect "false" (JBool false) (c :: r)
          else if Ascii.eqb c dquote then
            '(cs, r') ← take_chars r; Some (JString (string_of cs), r')
          else if Ascii.eqb c "-"%char then parse_int true r
          else if is_digit c then parse_int false (c :: r)
          else if Ascii.eqb c "["%char then
            match skip_ws r with
            | c' :: r' =>
                if Ascii.eqb c' "]"%char then Some (JArray [], r')
                else parse_elems fuel r []
            | [] => None
            end
          else if Ascii.eqb c "{"%char then
            match skip_ws r with
            | c' :: r' =>
                if Ascii.eqb c' "}"%char then Some (JObject [], r')
                else parse_members fuel r []
            | [] => None
            end
          else None
      end
  end
with parse_elems (fuel : nat) (s : list ascii) (acc : list JsVal) {struct fuel}
  : option (JsVal * list ascii) :=
  match fuel with
  | 0 => None
  | S fuel =>
      '(v, r) ← parse_value fuel s;
      match skip_ws r with
      | c :: r' =>
          if Ascii.eqb c ","%char then parse_elems fuel r' (acc ++ [v])
          else if Ascii.eqb c "]"%char then Some (JArray (acc ++ [v]), r')
          else None
      | [] => None
      end
  end
with parse_members (fuel : nat) (s : list ascii) (acc : list (string * JsVal))
  {struct fuel} : option (JsVal * list ascii) :=
  match fuel with
  | 0 => None
  | S fuel =>
      match skip_ws s with
      | c :: r =>
          if Ascii.eqb c dquote then
            '(cs, r1) ← take_chars r;
            match skip_ws r1 with
            | c1 :: r2 =>
                if Ascii.eqb c1 ":"%char then
                  '(v, r3) ← parse_value fuel r2;
                  let acc' := set_field (string_of cs) v acc in
                  match skip_ws r3 with
                  | c3 :: r4 =>
                      if Ascii.eqb c3 ","%char then parse_members fuel r4 acc'
                      else if Ascii.eqb c3 "}"%char then Some (JObject acc', r4)
                      else None
                  | [] => None
                  end
                else None
            | [] => None
            end
          else None
      | [] => None
      end
  end.

Definition parse_fragment (text : string) : completion JsVal :=
  let s := chars_of text in
  match parse_value (2 * length s + 2) s with
  | Some (v, r) =>
      match skip_ws r with
      | [] => Normal v
      | _ :: _ => Throw (SyntaxError "Unexpected token in JSON")
      end
  | None => Throw (SyntaxError "Unexpected token in JSON")
  end.

End Js.

Declare Scope js_scope.
Delimit Scope js_scope with js.
Notation "x <- m ;; k" := (Js.bind m (λ x, k))
  (at level 100, m at next level, right associativity) : js_scope.
Notation "m ;;; k" := (Js.bind m (λ _, k))
  (at level 100, right associativity) : js_scope.

(** ** The server *)
Module Fluffd.
Import Js.
Local Open Scope js_scope.

(** What noble reports of a discovered peripheral: [peripheral.uuid] and
    [peripheral.advertisement.localName] (which may be undefined). *)
Record Peripheral := {
  uuid : string;
  localName : option string;
}.

#[global] Instance Peripheral_eq_dec : EqDecision Peripheral.
Proof. solve_decision. Defined.

(** An incoming HTTP request: [req.url], [req.method] and, for each [data]
    event before [end], the text that [commandDataString += data] appends:
    the chunk's Buffer as decoded on its own. *)
Record Request := {
  url : string;
  method : string;
  chunks : list string;
}.

(** The response object [res]: the head written by [res.writeHead], if any,
    and the calls of [res.end] in order, each with its argument. *)
Record Response := {
  head : option (nat * list (string * string));
  end_calls : list (option string);
}.

Definition fresh_response : Response := {| head := None; end_calls := [] |}.

(** What reaches the HTTP caller: the headers of the explicit head (none of
    the server's own when the head is implicit) and the data of the first
    [res.end], which finishes the response; a later [res.end] sends
    nothing. *)
Definition sent_headers (r : Response) : list (string * string) :=
  match head r with
  | Some (_, headers) => headers
  | None => []
  end.

Definition sent_body (r : Response) : option string :=
  match end_calls r with
  | [] => None
  | data :: _ => Some (default "" data)
  end.

Definition cors_headers : list (string * string) :=
  [("Content-Type", "text/plain"); ("Access-Control-Allow-Origin", "*")].

Definition allows_any_origin (r : Response) : Prop :=
  ("Access-Control-Allow-Origin", "*") ∈ sent_headers r.

(** [req.url.substring(1)], [s.split("/")] and [l.join("/")]. *)
Definition substring1 (s : string) : string :=
  match s with
  | EmptyString => EmptyString
  | String _ rest => rest
  end.

Fixpoint split (sep : ascii) (s : string) : list string :=
  match s with
  | EmptyString => [EmptyString]
  | String c rest =>
      if Ascii.eqb c sep then EmptyString :: split sep rest
      else match split sep rest with
           | h :: t => String c h :: t
           | [] => [String c EmptyString]
           end
  end.

Fixpoint join (sep : string) (l : list string) : string :=
  match l with
  | [] => ""
  | [x] => x
  | x :: rest => x +:+ sep +:+ join sep rest
  end.

(** [fragments.splice(0, 2)] followed by [query.push(fragments.join("/"))]. *)
Definition query_of (url : string) : list string :=
  let fragments := split "/" (substring1 url) in
  let query := take 2 fragments in
  let fragments := drop 2 fragments in
  query ++ [join "/" fragments].

(** The requests of the scenarios. *)
Definition scan_request : Request :=
  {| url := "/scan"; method := "GET"; chunks := [] |}.

Definition post (path body : string) : Request :=
  {| url := path; method := "POST"; chunks := [body] |}.

Definition furby_ab : Peripheral :=
  {| uuid := "AA:BB"; localName := Some "Furby" |}.
Definition furby_cd : Peripheral :=
  {| uuid := "CC:DD"; localName := Some "Furby" |}.

(** The bodies [{"target":"<id>"}] and [{"target":"<id>","params":<json>}]. *)
Definition body_target (id : string) : string :=
  "{" +:+ quoted "target" +:+ ":" +:+ quoted id +:+ "}".
Definition body_target_params (id params : string) : string :=
  "{" +:+ quoted "target" +:+ ":" +:+ quoted id +:+ ","
      +:+ quoted "params" +:+ ":" +:+ params +:+ "}".

Section Server.

(** The collaborators of [fluffd.js]: the connection object [fluff] that
    [fluffcon.connect] hands to its callback, the command table
    [fluffaction.commands], the rendering [JSON.stringify(fluffaction.list())],
    the runtime's [JSON.parse], and [process.argv[2]], fixed when the
    process starts. *)
Context {Fluff Commands : Type}.
Variable fluffaction_commands : Commands.
Variable fluffaction_list_json : string.
Variable JSON_parse : string → completion JsVal.
Variable argv2 : option string.

(** Modelled from the spec: class [Furby] of [furby.js], which is not among
    the sources.  A Device Session wraps one connected peripheral; it is
    built from the peripheral's uuid and its connection, learns the command
    table, and [do] executes a command on it.  [ref] is the identity of the
    object [new] allocates. *)
Record Furby := {
  furby_ref : nat;
  furby_uuid : string;
  furby_fluff : Fluff;
  furby_commands : option Commands;
}.

Definition Furby_new (ref : nat) (id : string) (fluff : Fluff) : Furby :=
  {| furby_ref := ref; furby_uuid := id; furby_fluff := fluff;
     furby_commands := None |}.

Definition Furby_learn (commands : Commands) (f : Furby) : Furby :=
  {| furby_ref := furby_ref f; furby_uuid := furby_uuid f;
     furby_fluff := furby_fluff f; furby_commands := Some commands |}.

(** What the process does to the outside, in order. *)
Inductive Effect :=
| WinstonLog (level message : string) (meta : list (option JsVal))
| StartScanning
| StopScanning
| Introspect (p : Peripheral)
| Connect (p : Peripheral)
| Do (furby : Furby) (commandName : string) (params : option JsVal).

(** The state of the process: the own properties of the object [furbies]
    (whose prototype is [Object.prototype]), the allocation counter, the
    connects whose callback has not fired yet, whether the process has
    exited, the effects so far and the responses sent so far.

    noble derives [peripheral.uuid] from the hardware address; assignment
    [furbies[uuid] = furby] is an insertion of an own property for every
    such key (the one key for which it would not be, the accessor
    [__proto__], is no address). *)
Record St := {
  furbies : gmap string Furby;
  next_ref : nat;
  pending : list Peripheral;
  exited : bool;
  out : list Effect;
  replies : list Response;
}.

Definition init : St :=
  {| furbies := ∅; next_ref := 0; pending := []; exited := false;
     out := []; replies := [] |}.

Definition set_furbies (f : gmap string Furby → gmap string Furby) (s : St) : St :=
  {| furbies := f (furbies s); next_ref := next_ref s; pending := pending s;
     exited := exited s; out := out s; replies := replies s |}.
Definition set_next_ref (n : nat) (s : St) : St :=
  {| furbies := furbies s; next_ref := n; pending := pending s;
     exited := exited s; out := out s; replies := replies s |}.
Definition set_pending (l : list Peripheral) (s : St) : St :=
  {| furbies := furbies s; next_ref := next_ref s; pending := l;
     exited := exited s; out := out s; replies := replies s |}.
Definition set_exited (b : bool) (s : St) : St :=
  {| furbies := furbies s; next_ref := next_ref s; pending := pending s;
     exited := b; out := out s; replies := replies s |}.
Definition add_effect (e : Effect) (s : St) : St :=
  {| furbies := furbies s; next_ref := next_ref s; pending := pending s;
     exited := exited s; out := out s ++ [e]; replies := replies s |}.
Definition add_reply (r : Response) (s : St) : St :=
  {| furbies := furbies s; next_ref := next_ref s; pending := pending s;
     exited := exited s; out := out s; replies := replies s ++ [r] |}.

(** Handlers of noble events run on the process state; handlers of HTTP
    requests also hold the response object of their request. *)
Definition Proc := M St.
Definition Http := M (St * Response).

Definition emit (e : Effect) : Proc unit := modify (add_effect e).

Definition on_proc {A} (m : Proc A) : Http A :=
  λ '(s, r), let '(c, s') := m s in (c, (s', r)).

Definition res_writeHead (status : nat) (headers : list (string * string))
  : Http unit :=
  modify (λ '(s, r), (s, {| head := Some (status, headers);
                            end_calls := end_calls r |})).

Definition res_end (data : option string) : Http unit :=
  modify (λ '(s, r), (s, {| head := head r;
                            end_calls := end_calls r ++ [data] |})).

Definition winston_log (level message : string) (meta : list (option JsVal))
  : Proc unit :=
  emit (WinstonLog level message meta).

Definition noble_startScanning : Proc unit := emit StartScanning.
Definition noble_stopScanning : Proc unit := emit StopScanning.

(** Modelled from the spec: [Furby.prototype.do] ([furby.js] is missing).
    [execute(commandName, params)] is fire-and-forget: the invocation is
    handed to the session and its outcome, success or failure, is only
    logged later; nothing comes back to the caller. *)
Definition Furby_do (furby : Furby) (commandName : string)
  (params : option JsVal) : Proc unit :=
  emit (Do furby commandName params).

(** [furbyId in furbies]: an own property or one inherited from
    [Object.prototype]. *)
Definition in_furbies (furbyId : string) (s : St) : bool :=
  bool_decide (is_Some (furbies s !! furbyId)) || inherited furbyId.

(** [furbies[furbyId].do(commandName, params)].  An own property is a Furby.
    An inherited one is a method of [Object.prototype] (or, for
    [__proto__], that object itself) and has no property [do]; a missing
    one is [undefined]. *)
Definition furbies_do (furbyId commandName : string) (params : option JsVal)
  : Proc unit :=
  furbs <- gets furbies;;
  match furbs !! furbyId with
  | Some furby => Furby_do furby commandName params
  | None =>
      if inherited furbyId
      then throw (TypeError "furbies[furbyId].do is not a function")
      else throw (TypeError "Cannot read property 'do' of undefined")
  end.

(** [for (let furbyId in furbies)]: the own enumerable keys; the properties
    of [Object.prototype] are not enumerable.  The order of enumeration is
    not modelled: the keys come in the order of [map_to_list]. *)
Definition for_in_furbies (body : string → Proc unit) : Proc unit :=
  furbs <- gets furbies;;
  for_each (map_to_list furbs).*1 body.

(** The [end] callback of [parsePostCommand] (lines 71-98), with
    [commandDataString] the concatenation of the chunks received. *)
Definition parsePostCommand_end (commandName commandDataString : string)
  : Http unit :=
  try_catch
    (commandData <- lift (JSON_parse commandDataString);;
     has_target <- lift (js_in "target" commandData);;
     (if has_target : bool then
        target_str <- lift (to_string_opt (get_field "target" commandData));;
        params_str <- lift (to_string_opt (get_field "params" commandData));;
        on_proc (winston_log "verbose"
          ("Sending " +:+ commandName +:+ " command to single Furby "
             +:+ target_str +:+ ", params: " +:+ params_str) []);;;
        furbyId <- lift (to_string_opt (get_field "target" commandData));;
        present <- on_proc (gets (in_furbies furbyId));;
        if present : bool then
          on_proc (furbies_do furbyId commandName
                     (get_field "params" commandData))
        else
          on_proc (winston_log "warn" "could not find target" []);;;
          res_end (Some "error: could not find target")
      else
        on_proc (winston_log "verbose"
          ("Sending " +:+ commandName +:+ " command to all Furbies, params:")
          [get_field "params" commandData]);;;
        on_proc (for_in_furbies (λ furbyId,
          furbies_do furbyId commandName (get_field "params" commandData))));;;
     res_end (Some "ok"))
    (λ e,
       on_proc (winston_log "warn"
         ("Could not parse HTTP command: " +:+ error_to_string e) []);;;
       res_end (Some ("error: " +:+ error_to_string e))).

(** [parsePostCommand] (lines 65-99): the text of each chunk is appended
    to [commandDataString] as it arrives, then the [end] callback runs. *)
Definition body_of (req : Request) : string :=
  fold_left String.append (chunks req) "".

Definition parsePostCommand (commandName : string) (req : Request) : Http unit :=
  let commandDataString := body_of req in
  parsePostCommand_end commandName commandDataString.

(** The request listener of [http.createServer] (lines 36-62). *)
Definition handler (req : Request) : Http unit :=
  let query := query_of (url req) in
  if bool_decide (query !! 0 = Some "cmd") then
    res_writeHead 200 cors_headers;;;
    if String.eqb (method req) "POST" then
      let commandName := default "" (query !! 1) in
      parsePostCommand commandName req
    else res_end None
  else if bool_decide (query !! 0 = Some "list") then
    res_writeHead 200 cors_headers;;;
    res_end (Some fluffaction_list_json)
  else if bool_decide (query !! 0 = Some "scan") then
    on_proc noble_startScanning;;;
    res_end (Some "scanning")
  else
    res_writeHead 200 cors_headers;;;
    res_end None.

(** The [stateChange] callback (lines 103-109). *)
Definition on_stateChange (state : string) : Proc unit :=
  if String.eqb state "poweredOn" then noble_startScanning
  else noble_stopScanning.

(** Modelled from the spec: [fluffcon.introspect] ([fluffcon.js] is
    missing) enumerates the services and capabilities the peripheral
    exposes and terminates the process. *)
Definition fluffcon_introspect (p : Peripheral) : Proc unit :=
  emit (Introspect p);;;
  modify (set_exited true).

(** Modelled from the spec: [fluffcon.connect] ([fluffcon.js] is missing)
    starts connecting to the peripheral and keeps the callback, which it
    calls with the connection once established; a failed connect is
    dropped and not retried. *)
Definition fluffcon_connect (p : Peripheral) : Proc unit :=
  emit (Connect p);;;
  l <- gets pending;;
  modify (set_pending (l ++ [p])).

(** The callback given to [fluffcon.connect] (lines 122-126). *)
Definition connect_callback (p : Peripheral) (fluff : Fluff) : Proc unit :=
  ref <- gets next_ref;;
  modify (set_next_ref (S ref));;;
  let furby := Furby_new ref (uuid p) fluff in
  let furby := Furby_learn fluffaction_commands furby in
  modify (set_furbies (λ furbs, <[uuid p := furby]> furbs)).

(** The [discover] callback (lines 111-128). *)
Definition on_discover (p : Peripheral) : Proc unit :=
  if bool_decide (localName p = Some "Furby") then
    winston_log "info" ("Discovered Furby: " +:+ uuid p) [];;;
    if bool_decide (argv2 = Some "introspect") then
      fluffcon_introspect p
    else
      fluffcon_connect p
  else ret tt.

(** *** The event loop

    The process reacts to one event at a time.  [HttpEnd] is the [end]
    event of a request, when [parsePostCommand] reads the registry.
    [ConnectSucceeded] is fluffcon calling back for a connect in flight and
    [ConnectFailed] is that connect failing.  [Disconnected] is the link to
    a peripheral dropping: [fluffd.js] registers no callback for it. *)
Inductive Event :=
| StateChange (state : string)
| Discovered (p : Peripheral)
| ConnectSucceeded (p : Peripheral) (fluff : Fluff)
| ConnectFailed (p : Peripheral)
| Disconnected (id : string)
| HttpEnd (req : Request).

(** Drop the first occurrence of [p]. *)
Fixpoint remove_first (p : Peripheral) (l : list Peripheral) : list Peripheral :=
  match l with
  | [] => []
  | q :: rest => if bool_decide (q = p) then rest else q :: remove_first p rest
  end.

(** The state a callback leaves. *)
Definition exec (m : Proc unit) (s : St) : St := (m s).2.

(** A request is served on a response object of its own, which is kept
    among the replies. *)
Definition serve (req : Request) (s : St) : St :=
  let '(s', r) := (handler req (s, fresh_response)).2 in
  add_reply r s'.

(** One event.  A process that has exited reacts to nothing; a connect
    calls back, or fails, only while it is in flight. *)
Definition step (e : Event) (s : St) : St :=
  if exited s then s
  else match e with
       | StateChange state => exec (on_stateChange state) s
       | Discovered p => exec (on_discover p) s
       | ConnectSucceeded p fluff =>
           if bool_decide (p ∈ pending s)
           then exec (connect_callback p fluff)
                     (set_pending (remove_first p (pending s)) s)
           else s
       | ConnectFailed p =>
           if bool_decide (p ∈ pending s)
           then set_pending (remove_first p (pending s)) s
           else s
       | Disconnected _ => s
       | HttpEnd req => serve req s
       end.

Definition run (evs : list Event) (s : St) : St :=
  fold_left (λ s e, step e s) evs s.

(** The peripherals whose link is up after a history of events: a link
    comes up when a connect succeeds and goes down at a disconnect. *)
Fixpoint live_after (evs : list Event) (live : gset string) : gset string :=
  match evs with
  | [] => live
  | ConnectSucceeded p _ :: rest => live_after rest ({[uuid p]} ∪ live)
  | Disconnected id :: rest => live_after rest (live ∖ {[id]})
  | _ :: rest => live_after rest live
  end.

(** The executions among some effects, in order. *)
Definition executions (log : list Effect)
  : list (Furby * string * option JsVal) :=
  omap (λ e, match e with
             | Do furby name params => Some (furby, name, params)
             | _ => None
             end) log.

(** The effects a handler adds when run from [s]. *)
Definition effects_of (m : Http unit) (s : St) : list Effect :=
  drop (length (out s)) (out (m (s, fresh_response)).2.1).

(** The response object a handler leaves, and the registry after it. *)
Definition response_of (m : Http unit) (s : St) : Response :=
  (m (s, fresh_response)).2.2.

Definition furbies_after (m : Http unit) (s : St) : gmap string Furby :=
  furbies (m (s, fresh_response)).2.1.

(** Several effects at once, and one more [res.end]. *)
Definition add_effects (es : list Effect) (s : St) : St :=
  {| furbies := furbies s; next_ref := next_ref s; pending := pending s;
     exited := exited s; out := out s ++ es; replies := replies s |}.

Definition add_end (data : option string) (r : Response) : Response :=
  {| head := head r; end_calls := end_calls r ++ [data] |}.

(** The log lines of the targeted branch and of the [catch] clause. *)
Definition log_single (name target_str params_str : string) : Effect :=
  WinstonLog "verbose"
    ("Sending " +:+ name +:+ " command to single Furby " +:+ target_str
       +:+ ", params: " +:+ params_str) [].

Definition log_caught (e : JsError) : Effect :=
  WinstonLog "warn" ("Could not parse HTTP command: " +:+ error_to_string e) [].

(** Run the monadic operations of a handler as far as they go. *)
Ltac js_run :=
  repeat (progress (unfold try_catch, bind, lift, ret, throw, gets, modify,
                      on_proc, emit, winston_log, res_end, res_writeHead,
                      noble_startScanning, noble_stopScanning, Furby_do;
                    simpl)).

(** Close an equation between final states that differ in how the log was
    appended. *)
Ltac st_eq :=
  unfold add_effect, add_effects, add_end, log_single, log_caught; simpl;
  rewrite <- ?app_assoc; reflexivity.

(** What the [end] callback may add to the log when run from [s]: log
    lines, and executions on sessions registered in [s]. *)
Definition dispatch_effect (s : St) (e : Effect) : Prop :=
  match e with
  | WinstonLog _ _ _ => True
  | Do furby _ _ => ∃ id, furbies s !! id = Some furby
  | _ => False
  end.

(** [res.writeHead(200, {...})] with the CORS header. *)
Definition set_head (r : Response) : Response :=
  {| head := Some (200, cors_headers); end_calls := end_calls r |}.

(** What the request listener may add to the log: the above, and the scan
    restart of [/scan]. *)
Definition handler_effect (s : St) (e : Effect) : Prop :=
  dispatch_effect s e ∨ e = StartScanning.

(** A request body that [JSON.parse] refuses, or that parses to a
    primitive value (null, a boolean, a number or a string): neither an
    object nor an array. *)
Definition refused_or_primitive (text : string) : Prop :=
  match JSON_parse text with
  | Throw _ => True
  | Normal v => is_object v = false
  end.

(** A request body that is not parseable as the object the header of
    [fluffd.js] asks for, with its optional [target] and [params]:
    [JSON.parse] refuses it, or it parses to anything but an object, an
    array included. *)
Definition not_a_command_object (text : string) : Prop :=
  match JSON_parse text with
  | Normal (JObject _) => False
  | _ => True
  end.

(** The log line of the [discover] callback. *)
Definition log_discovered (p : Peripheral) : Effect :=
  WinstonLog "info" ("Discovered Furby: " +:+ uuid p) [].

(** The session the connect callback builds when run from [s]. *)
Definition new_furby (p : Peripheral) (fluff : Fluff) (s : St) : Furby :=
  Furby_learn fluffaction_commands (Furby_new (next_ref s) (uuid p) fluff).

(** Sessions are allocated in order: the registry holds none that is yet
    to be allocated. *)
Definition refs_below (s : St) : Prop :=
  ∀ k f, furbies s !! k = Some f → furby_ref f < next_ref s.

(** After session number [n] went in under [id], it can only sit there. *)
Definition only_at (n : nat) (id : string) (s : St) : Prop :=
  n < next_ref s ∧ ∀ k f, furbies s !! k = Some f → furby_ref f = n → k = id.

(** A discovery the [discover] callback acts on. *)
Definition matching (e : Event) : bool :=
  match e with
  | Discovered q => bool_decide (localName q = Some "Furby")
  | _ => false
  end.

(** An effect outside the connect and dispatch flow. *)
Definition quiet (e : Effect) : Prop :=
  match e with
  | Connect _ | Do _ _ _ => False
  | _ => True
  end.

(** Nothing registered, no connect in flight, and only quiet effects. *)
Definition idle (s : St) : Prop :=
  furbies s = ∅ ∧ pending s = [] ∧ Forall quiet (out s).

(** A path segment: a string without a slash. *)
Fixpoint slashless (s : string) : bool :=
  match s with
  | EmptyString => true
  | String c rest => negb (Ascii.eqb c "/") && slashless rest
  end.

(** What a request may add to the log when run from [s]: log lines, the
    scan restart of the [/scan] route, and executions on sessions
    registered in [s], under the command name of the URL and with the
    params of the parsed body. *)
Definition command_effect (name text : string) (s : St) (e : Effect) : Prop :=
  match e with
  | WinstonLog _ _ _ => True
  | Do furby commandName params =>
      commandName = name
      ∧ (∃ id, furbies s !! id = Some furby)
      ∧ ∃ commandData, JSON_parse text = Normal commandData
                       ∧ params = get_field "params" commandData
  | _ => False
  end.

Definition request_effect (req : Request) (s : St) (e : Effect) : Prop :=
  command_effect (default "" (query_of (url req) !! 1)) (body_of req) s e
  ∨ (e = StartScanning ∧ query_of (url req) !! 0 = Some "scan").

(** The connects among some effects, and the discoveries among some events
    that the [discover] callback acts on, both in order. *)
Definition connects (log : list Effect) : list Peripheral :=
  omap (λ e, match e with Connect p => Some p | _ => None end) log.

Definition furby_discoveries (evs : list Event) : list Peripheral :=
  omap (λ e, match e with
             | Discovered p =>
                 if bool_decide (localName p = Some "Furby")
                 then Some p else None
             | _ => None
             end) evs.

(** A registered session as the connect callback leaves it: stored under
    its own uuid, with the command table learned, and allocated before. *)
Definition well_formed_entry (s : St) (id : string) (f : Furby) : Prop :=
  furby_uuid f = id
  ∧ furby_commands f = Some fluffaction_commands
  ∧ furby_ref f < next_ref s.

(** The scan commands among some effects ([true] for a start, [false] for
    a stop), and what asks for one among some events: an adapter
    notification, or a request to [/scan]. *)
Definition scan_commands (log : list Effect) : list bool :=
  omap (λ e, match e with
             | StartScanning => Some true
             | StopScanning => Some false
             | _ => None
             end) log.

Definition scan_requests (evs : list Event) : list bool :=
  omap (λ e, match e with
             | StateChange state => Some (bool_decide (state = "poweredOn"))
             | HttpEnd req =>
                 if bool_decide (query_of (url req) !! 0 = Some "scan")
                 then Some true else None
             | _ => None
             end) evs.

(** The successful connects for [id] among some events. *)
Definition connects_for (id : string) (e : Event) : bool :=
  match e with
  | ConnectSucceeded p _ => bool_decide (uuid p = id)
  | _ => false
  end.

(** ** Properties *)

(** *** The values the handlers compute with *)

Example query_of_command : query_of "/cmd/feed" = ["cmd"; "feed"; ""].
Proof. reflexivity. Qed.

Example query_of_bare : query_of "/cmd" = ["cmd"; ""].
Proof. reflexivity. Qed.

Example query_of_deep : query_of "/cmd/a/b/c" = ["cmd"; "a"; "b/c"].
Proof. reflexivity. Qed.

Example to_string_array :
  to_string (JArray [JNumber "1"; JNull; JArray [JBool true; JObject []]])
  = Normal "1,,true,[object Object]".
Proof. reflexivity. Qed.

Example to_string_shadowed :
  to_string (JObject [("toString", JNumber "1")])
  = Throw (TypeError "Cannot convert object to primitive value").
Proof. reflexivity. Qed.

Example in_on_number :
  js_in "target" (JNumber "5")
  = Throw (TypeError "Cannot use 'in' operator to search for 'target' in 5").
Proof. reflexivity. Qed.

Example parse_nested :
  parse_fragment (body_target_params "AA:BB" "[1, null, {}]")
  = Normal (JObject [("target", JString "AA:BB");
                     ("params", JArray [JNumber "1"; JNull; JObject []])]).
Proof. reflexivity. Qed.

Lemma split_cons sep s : ∃ h t, split sep s = h :: t.
Proof.
  destruct s as [|c s]; simpl; [by eauto|].
  destruct (Ascii.eqb c sep); [by eauto|].
  destruct (split sep s); eauto.
Qed.

(** The command name is always there: [query] has at least two entries. *)
Lemma query_of_command_name u : is_Some (query_of u !! 1).
Proof.
  unfold query_of. destruct (split_cons "/" (substring1 u)) as (h & t & ->).
  destruct t; simpl; eauto.
Qed.

(** *** The log *)

Lemma add_effects_nil s : add_effects [] s = s.
Proof. destruct s; unfold add_effects; simpl; by rewrite app_nil_r. Qed.

Lemma add_effects_effects es1 es2 s :
  add_effects es2 (add_effects es1 s) = add_effects (es1 ++ es2) s.
Proof. unfold add_effects; simpl. by rewrite app_assoc. Qed.

Lemma add_effect_one e s : add_effect e s = add_effects [e] s.
Proof. reflexivity. Qed.

(** The loop of the broadcast branch: one [do] per own entry, nothing else. *)
Lemma for_each_do (l : list (string * Furby)) name params s :
  (∀ k f, (k, f) ∈ l → furbies s !! k = Some f) →
  for_each l.*1 (λ furbyId, furbies_do furbyId name params) s
  = (Normal tt, add_effects ((λ kv, Do kv.2 name params) <$> l) s).
Proof.
  revert s. induction l as [|[k f] l IH]; intros s Hl; simpl.
  - by rewrite add_effects_nil.
  - unfold bind at 1. unfold furbies_do at 1, bind, gets.
    rewrite (Hl k f) by left. unfold Furby_do, emit, modify.
    rewrite IH.
    + by rewrite add_effect_one, add_effects_effects.
    + intros k' f' Hin. simpl. apply Hl. by right.
Qed.

Lemma for_in_furbies_do name params s :
  for_in_furbies (λ furbyId, furbies_do furbyId name params) s
  = (Normal tt,
     add_effects ((λ kv, Do kv.2 name params) <$> map_to_list (furbies s)) s).
Proof.
  unfold for_in_furbies, bind, gets. apply for_each_do.
  intros k f Hin. by apply elem_of_map_to_list.
Qed.

Lemma executions_do (l : list (string * Furby)) name params :
  executions ((λ kv, Do kv.2 name params) <$> l)
  = (λ kv, (kv.2, name, params)) <$> l.
Proof.
  unfold executions. induction l as [|kv l IH]; [done|].
  rewrite !fmap_cons. cbn [omap list_omap]. by rewrite IH.
Qed.

(** What the [end] callback does with a body that parses to an object (or
    an array) without a [target] field. *)
Lemma parsePostCommand_end_broadcast name text commandData s r :
  JSON_parse text = Normal commandData →
  js_in "target" commandData = Normal false →
  parsePostCommand_end name text (s, r)
  = (Normal tt,
     (add_effects
        (WinstonLog "verbose"
           ("Sending " +:+ name +:+ " command to all Furbies, params:")
           [get_field "params" commandData]
         :: ((λ kv, Do kv.2 name (get_field "params" commandData))
               <$> map_to_list (furbies s))) s,
      add_end (Some "ok") r)).
Proof.
  intros Hparse Hin.
  unfold parsePostCommand_end, try_catch, bind, lift.
  rewrite Hparse, Hin. simpl.
  unfold winston_log, emit, modify. simpl.
  rewrite for_in_furbies_do. simpl.
  by rewrite add_effect_one, add_effects_effects.
Qed.

(** A body [JSON.parse] refuses. *)
Lemma parsePostCommand_end_unparsed name text e s r :
  JSON_parse text = Throw e →
  parsePostCommand_end name text (s, r)
  = (Normal tt, (add_effects [log_caught e] s,
                 add_end (Some ("error: " +:+ error_to_string e)) r)).
Proof.
  intros Hparse. unfold parsePostCommand_end, try_catch, bind, lift.
  by rewrite Hparse.
Qed.

(** A body that parses to a primitive: [in] throws. *)
Lemma js_in_primitive key v :
  is_object v = false → ∃ e, js_in key v = Throw e.
Proof. destruct v; simpl; try done; eauto. Qed.

Lemma parsePostCommand_end_not_object name text v e s r :
  JSON_parse text = Normal v →
  js_in "target" v = Throw e →
  parsePostCommand_end name text (s, r)
  = (Normal tt, (add_effects [log_caught e] s,
                 add_end (Some ("error: " +:+ error_to_string e)) r)).
Proof.
  intros Hparse He. unfold parsePostCommand_end, try_catch, bind, lift.
  by rewrite Hparse, He.
Qed.

(** The targeted branch, when the log line can be built. *)
Lemma parsePostCommand_end_present name text commandData id ps furby s r :
  JSON_parse text = Normal commandData →
  js_in "target" commandData = Normal true →
  to_string_opt (get_field "target" commandData) = Normal id →
  to_string_opt (get_field "params" commandData) = Normal ps →
  furbies s !! id = Some furby →
  parsePostCommand_end name text (s, r)
  = (Normal tt,
     (add_effects [log_single name id ps;
                   Do furby name (get_field "params" commandData)] s,
      add_end (Some "ok") r)).
Proof.
  intros Hparse Hin Hid Hps Hfurby.
  unfold parsePostCommand_end, try_catch, bind, lift.
  rewrite Hparse, Hin, Hid, Hps. simpl.
  unfold in_furbies, furbies_do. js_run.
  rewrite Hfurby, bool_decide_true by eauto. js_run.
  rewrite Hfurby. st_eq.
Qed.

Lemma parsePostCommand_end_absent name text commandData id ps s r :
  JSON_parse text = Normal commandData →
  js_in "target" commandData = Normal true →
  to_string_opt (get_field "target" commandData) = Normal id →
  to_string_opt (get_field "params" commandData) = Normal ps →
  in_furbies id s = false →
  parsePostCommand_end name text (s, r)
  = (Normal tt,
     (add_effects [log_single name id ps;
                   WinstonLog "warn" "could not find target" []] s,
      add_end (Some "ok") (add_end (Some "error: could not find target") r))).
Proof.
  intros Hparse Hin Hid Hps Habsent.
  unfold parsePostCommand_end, try_catch, bind, lift.
  rewrite Hparse, Hin, Hid, Hps. simpl.
  unfold in_furbies in *. js_run. rewrite Habsent. js_run. st_eq.
Qed.

Lemma parsePostCommand_end_inherited name text commandData id ps s r :
  JSON_parse text = Normal commandData →
  js_in "target" commandData = Normal true →
  to_string_opt (get_field "target" commandData) = Normal id →
  to_string_opt (get_field "params" commandData) = Normal ps →
  furbies s !! id = None →
  inherited id = true →
  let e := TypeError "furbies[furbyId].do is not a function" in
  parsePostCommand_end name text (s, r)
  = (Normal tt,
     (add_effects [log_single name id ps; log_caught e] s,
      add_end (Some ("error: " +:+ error_to_string e)) r)).
Proof.
  intros Hparse Hin Hid Hps Hnone Hinh.
  unfold parsePostCommand_end, try_catch, bind, lift.
  rewrite Hparse, Hin, Hid, Hps. simpl.
  unfold in_furbies, furbies_do. js_run.
  rewrite Hnone, Hinh, orb_true_r. js_run.
  rewrite Hnone. st_eq.
Qed.

(** The targeted branch, when building the log line throws. *)
Lemma parsePostCommand_end_unprintable name text commandData e s r :
  JSON_parse text = Normal commandData →
  js_in "target" commandData = Normal true →
  (to_string_opt (get_field "target" commandData) = Throw e
   ∨ (∃ id, to_string_opt (get_field "target" commandData) = Normal id)
     ∧ to_string_opt (get_field "params" commandData) = Throw e) →
  parsePostCommand_end name text (s, r)
  = (Normal tt, (add_effects [log_caught e] s,
                 add_end (Some ("error: " +:+ error_to_string e)) r)).
Proof.
  intros Hparse Hin [Ht | [[id Ht] Hp]];
    unfold parsePostCommand_end, try_catch, bind, lift;
    rewrite Hparse, Hin, Ht; simpl; [done|]. by rewrite Hp.
Qed.

(** Every path through the [end] callback: it returns normally, leaves
    the process state alone but for the log, keeps the head and ends the
    response at least once. *)
Lemma parsePostCommand_end_total name text s r :
  ∃ es data ends,
    parsePostCommand_end name text (s, r)
    = (Normal tt,
       (add_effects es s,
        {| head := head r; end_calls := end_calls r ++ data :: ends |}))
    ∧ Forall (dispatch_effect s) es.
Proof.
  destruct (JSON_parse text) as [commandData|e] eqn:Hparse.
  2: { eexists _, _, []. split;
       [by erewrite parsePostCommand_end_unparsed | by repeat constructor]. }
  destruct (js_in "target" commandData) as [[|]|e] eqn:Hin.
  3: { eexists _, _, []. split;
       [by erewrite parsePostCommand_end_not_object | by repeat constructor]. }
  2: { eexists _, _, []. split;
       [by erewrite parsePostCommand_end_broadcast|].
       constructor; [done|]. apply Forall_fmap, Forall_forall.
       intros [id f] Hel. exists id. by apply elem_of_map_to_list. }
  destruct (to_string_opt (get_field "target" commandData)) as [id|e] eqn:Hid.
  2: { eexists _, _, []. split;
       [erewrite parsePostCommand_end_unprintable; eauto
       | by repeat constructor]. }
  destruct (to_string_opt (get_field "params" commandData)) as [ps|e] eqn:Hps.
  2: { eexists _, _, []. split;
       [erewrite parsePostCommand_end_unprintable; eauto
       | by repeat constructor]. }
  destruct (furbies s !! id) as [furby|] eqn:Hfurby.
  { eexists _, _, []. split;
      [by erewrite parsePostCommand_end_present|].
    repeat constructor. by exists id. }
  destruct (inherited id) eqn:Hinh.
  { eexists _, _, []. split;
      [by erewrite parsePostCommand_end_inherited | by repeat constructor]. }
  eexists _, _, [_]. split.
  - erewrite parsePostCommand_end_absent; eauto.
    + unfold add_end; simpl. by rewrite <- app_assoc.
    + unfold in_furbies. rewrite Hfurby, Hinh.
      by rewrite bool_decide_false by (by intros [? ?]).
  - by repeat constructor.
Qed.

(** The request listener on a POST to [/cmd/...]: the head with the CORS
    header is written, then [parsePostCommand] runs. *)
Lemma handler_post_cmd req s r :
  query_of (url req) !! 0 = Some "cmd" →
  method req = "POST" →
  handler req (s, r)
  = parsePostCommand_end (default "" (query_of (url req) !! 1)) (body_of req)
      (s, set_head r).
Proof.
  intros Hq Hm. unfold handler. rewrite bool_decide_true by done.
  rewrite Hm. simpl. by unfold bind, res_writeHead, modify.
Qed.

(** Reading off what a handler did from its final state. *)
Lemma observe (m : Http unit) s c es r :
  m (s, fresh_response) = (c, (add_effects es s, r)) →
  effects_of m s = es ∧ response_of m s = r ∧ furbies_after m s = furbies s.
Proof.
  intros Hm. unfold effects_of, response_of, furbies_after. rewrite Hm.
  simpl. by rewrite drop_app_length.
Qed.

(** Every path through the request listener. *)
Lemma handler_total req s r :
  ∃ es data ends hd,
    handler req (s, r)
    = (Normal tt,
       (add_effects es s,
        {| head := hd; end_calls := end_calls r ++ data :: ends |}))
    ∧ Forall (handler_effect s) es
    ∧ (query_of (url req) !! 0 ≠ Some "scan" → hd = Some (200, cors_headers))
    ∧ (query_of (url req) !! 0 = Some "scan" → hd = head r).
Proof.
  destruct (decide (query_of (url req) !! 0 = Some "cmd"
                    ∧ method req = "POST")) as [[Hcmd Hm]|Hpost].
  { destruct (parsePostCommand_end_total
                (default "" (query_of (url req) !! 1)) (body_of req)
                s (set_head r)) as (es & data & ends & Hrun & Hes).
    exists es, data, ends, (Some (200, cors_headers)). split_and!.
    - by rewrite handler_post_cmd, Hrun.
    - eapply Forall_impl; [exact Hes|]. by left.
    - done.
    - by rewrite Hcmd. }
  unfold handler. case_bool_decide as Hcmd.
  { destruct (String.eqb (method req) "POST") eqn:Hm.
    - apply String.eqb_eq in Hm. by destruct Hpost.
    - exists [], None, [], (Some (200, cors_headers)). split_and!.
      + js_run. by rewrite add_effects_nil.
      + constructor.
      + done.
      + by rewrite Hcmd. }
  case_bool_decide as Hlist.
  { exists [], (Some fluffaction_list_json), [], (Some (200, cors_headers)).
    split_and!; [js_run; by rewrite add_effects_nil | constructor | done
                | by rewrite Hlist]. }
  case_bool_decide as Hscan.
  { exists [StartScanning], (Some "scanning"), [], (head r).
    split_and!; [by js_run | repeat constructor; by right | done | done]. }
  exists [], None, [], (Some (200, cors_headers)).
  split_and!; [js_run; by rewrite add_effects_nil | constructor | done | done].
Qed.

(** *** Dispatch *)

(** C3: a parsed command request without a target field executes the
    command exactly once on every entry of the registry as it is when the
    request is dispatched, and on nothing else; the response is "ok".  With
    an empty registry nothing is executed. *)
Theorem broadcast_executes_once_per_entry req commandData s :
  query_of (url req) !! 0 = Some "cmd" →
  method req = "POST" →
  JSON_parse (body_of req) = Normal commandData →
  js_in "target" commandData = Normal false →
  let name := default "" (query_of (url req) !! 1) in
  let params := get_field "params" commandData in
  executions (effects_of (handler req) s)
    ≡ₚ (λ kv, (kv.2, name, params)) <$> map_to_list (furbies s)
  ∧ (furbies s = ∅ → executions (effects_of (handler req) s) = [])
  ∧ end_calls (response_of (handler req) s) = [Some "ok"]
  ∧ sent_body (response_of (handler req) s) = Some "ok"
  ∧ furbies_after (handler req) s = furbies s.
Proof.
  intros Hq Hm Hparse Hin name params.
  pose proof (handler_post_cmd req s fresh_response Hq Hm) as Hrun.
  rewrite (parsePostCommand_end_broadcast _ _ _ _ _ Hparse Hin) in Hrun.
  apply observe in Hrun as (-> & -> & ->).
  assert (executions
            (WinstonLog "verbose"
               ("Sending " +:+ name +:+ " command to all Furbies, params:")
               [params]
             :: ((λ kv, Do kv.2 name params) <$> map_to_list (furbies s)))
          = (λ kv, (kv.2, name, params)) <$> map_to_list (furbies s)) as Hex.
  { rewrite <- executions_do. reflexivity. }
  fold name params. rewrite Hex. split_and!; try done.
  intros ->. by rewrite map_to_list_empty.
Qed.

(** C5, as amended: a POST command request whose body [JSON.parse]
    refuses, or whose body parses to null, a boolean, a number or a
    string, is answered with a text that begins with "error:"; nothing is
    executed and the registry is as before. *)
Theorem refused_or_primitive_body_is_refused req s :
  query_of (url req) !! 0 = Some "cmd" →
  method req = "POST" →
  refused_or_primitive (body_of req) →
  (∃ e, end_calls (response_of (handler req) s)
        = [Some ("error: " +:+ error_to_string e)])
  ∧ (∃ body, sent_body (response_of (handler req) s) = Some body
             ∧ String.prefix "error:" body = true)
  ∧ executions (effects_of (handler req) s) = []
  ∧ furbies_after (handler req) s = furbies s.
Proof.
  intros Hq Hm Hun.
  pose proof (handler_post_cmd req s fresh_response Hq Hm) as Hrun.
  unfold refused_or_primitive in Hun.
  assert (∃ e, handler req (s, fresh_response)
               = (Normal tt,
                  (add_effects [log_caught e] s,
                   add_end (Some ("error: " +:+ error_to_string e))
                     (set_head fresh_response)))) as [e He].
  { rewrite Hrun. destruct (JSON_parse (body_of req)) as [v|e] eqn:Hparse.
    - destruct (js_in_primitive "target" v Hun) as [e He]. exists e.
      by apply parsePostCommand_end_not_object with v.
    - exists e. by apply parsePostCommand_end_unparsed. }
  apply observe in He as (-> & -> & ->).
  split_and!; [by exists e | | done | done].
  eexists. split; [done|]. done.
Qed.

(** C10, as amended: for a parsed POST command request whose target is
    neither a registered id nor a property name of [Object.prototype], and
    whose target and params can be rendered for the log line, the handler
    ends the response twice: first with "error: could not find target" and
    then, without returning, with "ok". *)
Theorem absent_target_ends_twice req commandData id ps s :
  query_of (url req) !! 0 = Some "cmd" →
  method req = "POST" →
  JSON_parse (body_of req) = Normal commandData →
  js_in "target" commandData = Normal true →
  to_string_opt (get_field "target" commandData) = Normal id →
  to_string_opt (get_field "params" commandData) = Normal ps →
  in_furbies id s = false →
  end_calls (response_of (handler req) s)
  = [Some "error: could not find target"; Some "ok"]
  ∧ sent_body (response_of (handler req) s)
    = Some "error: could not find target"
  ∧ executions (effects_of (handler req) s) = [].
Proof.
  intros Hq Hm Hparse Hin Hid Hps Habsent.
  pose proof (handler_post_cmd req s fresh_response Hq Hm) as Hrun.
  rewrite (parsePostCommand_end_absent _ _ _ _ _ _ _ Hparse Hin Hid Hps Habsent)
    in Hrun.
  by apply observe in Hrun as (-> & -> & _).
Qed.

(** *** The request listener *)

(** Every route but [/scan] writes the head with the CORS header before it
    ends the response. *)
Lemma other_routes_allow_any_origin req s :
  query_of (url req) !! 0 ≠ Some "scan" →
  allows_any_origin (response_of (handler req) s).
Proof.
  intros Hq.
  destruct (handler_total req s fresh_response)
    as (es & data & ends & hd & Hrun & _ & Hhd & _).
  apply observe in Hrun as (_ & -> & _).
  unfold allows_any_origin, sent_headers. simpl. rewrite (Hhd Hq).
  unfold cors_headers. set_solver.
Qed.

(** C9 at the request [GET /scan]: the route restarts the scan and ends the
    response with "scanning" without writing a head, so the response goes
    out with no [Access-Control-Allow-Origin] header. *)
Theorem scan_response_lacks_cors_header s :
  head (response_of (handler scan_request) s) = None
  ∧ sent_headers (response_of (handler scan_request) s) = []
  ∧ sent_body (response_of (handler scan_request) s) = Some "scanning"
  ∧ ¬ allows_any_origin (response_of (handler scan_request) s).
Proof.
  assert (handler scan_request (s, fresh_response)
          = (Normal tt, (add_effects [StartScanning] s,
                         add_end (Some "scanning") fresh_response))) as Hrun
    by reflexivity.
  apply observe in Hrun as (_ & -> & _).
  split_and!; try done. unfold allows_any_origin. simpl. set_solver.
Qed.

(** *** The noble callbacks *)

Lemma on_stateChange_eq state s :
  on_stateChange state s
  = (Normal tt,
     add_effect (if bool_decide (state = "poweredOn")
                 then StartScanning else StopScanning) s).
Proof.
  unfold on_stateChange. case_bool_decide as Hstate.
  - by rewrite Hstate.
  - apply String.eqb_neq in Hstate. by rewrite Hstate.
Qed.

(** C8: on an adapter state-change notification the controller starts
    scanning when the new state is [poweredOn] and stops scanning for any
    other state.  The notification is all it looks at, and it keeps
    nothing of it: the process state is as before. *)
Theorem stateChange_starts_or_stops_scanning state s :
  let s' := exec (on_stateChange state) s in
  out s' = out s ++ [if bool_decide (state = "poweredOn")
                     then StartScanning else StopScanning]
  ∧ furbies s' = furbies s
  ∧ next_ref s' = next_ref s
  ∧ pending s' = pending s
  ∧ exited s' = exited s
  ∧ replies s' = replies s.
Proof. unfold exec. by rewrite on_stateChange_eq. Qed.

Lemma on_discover_eq p s :
  on_discover p s
  = (Normal tt,
     if bool_decide (localName p = Some "Furby") then
       if bool_decide (argv2 = Some "introspect")
       then set_exited true (add_effects [log_discovered p; Introspect p] s)
       else set_pending (pending s ++ [p])
              (add_effects [log_discovered p; Connect p] s)
     else s).
Proof.
  unfold on_discover. repeat case_bool_decide; try done.
  - unfold fluffcon_introspect. js_run. unfold set_exited. simpl.
    by rewrite <- app_assoc.
  - unfold fluffcon_connect. js_run. unfold set_pending. simpl.
    by rewrite <- app_assoc.
Qed.

Lemma connect_callback_eq p fluff s :
  connect_callback p fluff s
  = (Normal tt,
     set_furbies (λ furbs, <[uuid p := new_furby p fluff s]> furbs)
       (set_next_ref (S (next_ref s)) s)).
Proof. reflexivity. Qed.

Lemma serve_eq req s :
  ∃ es r, serve req s = add_reply r (add_effects es s)
          ∧ Forall (handler_effect s) es.
Proof.
  destruct (handler_total req s fresh_response)
    as (es & data & ends & hd & Hrun & Hes & _).
  unfold serve. rewrite Hrun. simpl. eauto.
Qed.

(** *** The event loop *)

Lemma run_snoc evs e s : run (evs ++ [e]) s = step e (run evs s).
Proof. unfold run. by rewrite fold_left_app. Qed.

Lemma run_cons e evs s : run (e :: evs) s = run evs (step e s).
Proof. reflexivity. Qed.

Lemma run_app evs1 evs2 s : run (evs1 ++ evs2) s = run evs2 (run evs1 s).
Proof. unfold run. by rewrite fold_left_app. Qed.

Lemma run_exited evs s : exited s = true → run evs s = s.
Proof.
  intros Hex. induction evs as [|e evs IH]; [done|].
  rewrite run_cons. unfold step at 1. by rewrite Hex.
Qed.

(** One step changes the registry by at most one insertion, made by the
    callback of a connect in flight. *)
Lemma step_furbies e s :
  furbies (step e s) = furbies s
  ∨ ∃ p fluff,
      e = ConnectSucceeded p fluff ∧ p ∈ pending s ∧ exited s = false
      ∧ furbies (step e s) = <[uuid p := new_furby p fluff s]> (furbies s)
      ∧ next_ref (step e s) = S (next_ref s).
Proof.
  unfold step. destruct (exited s) eqn:Hex; [by left|].
  destruct e as [state|p|p fluff|p|id|req].
  - left. unfold exec. by rewrite on_stateChange_eq.
  - left. unfold exec. rewrite on_discover_eq. simpl.
    by repeat case_bool_decide.
  - case_bool_decide as Hp; [|by left]. right. exists p, fluff.
    split_and!; try done.
  - left. by case_bool_decide.
  - by left.
  - left. destruct (serve_eq req s) as (es & r & -> & _). done.
Qed.

Lemma step_next_ref e s : next_ref s ≤ next_ref (step e s).
Proof.
  unfold step. destruct (exited s) eqn:Hex; [done|].
  destruct e as [state|p|p fluff|p|id|req].
  - unfold exec. by rewrite on_stateChange_eq.
  - unfold exec. rewrite on_discover_eq. simpl. by repeat case_bool_decide.
  - case_bool_decide; [|done]. simpl. lia.
  - by case_bool_decide.
  - done.
  - destruct (serve_eq req s) as (es & r & -> & _). done.
Qed.

Lemma step_dom e s : dom (furbies s) ⊆ dom (furbies (step e s)).
Proof.
  destruct (step_furbies e s) as [->|(p & fluff & _ & _ & _ & -> & _)];
    [done|].
  rewrite dom_insert_L. set_solver.
Qed.

Lemma run_furbies_origin evs s id :
  id ∈ dom (furbies (run evs s)) →
  id ∈ dom (furbies s)
  ∨ ∃ p fluff, ConnectSucceeded p fluff ∈ evs ∧ uuid p = id.
Proof.
  revert s. induction evs as [|e evs IH]; intros s Hid; [by left|].
  rewrite run_cons in Hid. apply IH in Hid as [Hid|(p & fluff & Hin & Hp)].
  - destruct (step_furbies e s)
      as [Heq|(p & fluff & -> & _ & _ & Heq & _)]; rewrite Heq in Hid.
    + by left.
    + rewrite dom_insert_L in Hid.
      apply elem_of_union in Hid as [Hid|Hid]; [|by left].
      right. exists p, fluff. split; [by left | set_solver].
  - right. exists p, fluff. split; [by right | done].
Qed.

(** *** The registry *)

(** C1, as amended: the callback of a successful connect is the only
    mutation of the registry.  A step of the process either leaves the
    registry as it is or is such a callback, which inserts the new session
    under the peripheral's id; so every entry was put there by a successful
    connect.  No step removes an entry: a disconnect notification leaves
    the registry as it is, and registered ids stay registered.  An entry
    changes only when a later connect for the same id succeeds and its
    callback overwrites it. *)
Theorem registry_changes_only_by_connect_insert :
  (∀ e s,
     furbies (step e s) = furbies s
     ∨ ∃ p fluff,
         e = ConnectSucceeded p fluff ∧ p ∈ pending s
         ∧ furbies (step e s) = <[uuid p := new_furby p fluff s]> (furbies s))
  ∧ (∀ evs id,
       id ∈ dom (furbies (run evs init)) →
       ∃ p fluff, ConnectSucceeded p fluff ∈ evs ∧ uuid p = id)
  ∧ (∀ id s, furbies (step (Disconnected id) s) = furbies s)
  ∧ (∀ e s, dom (furbies s) ⊆ dom (furbies (step e s)))
  ∧ (∀ e s id f,
       furbies s !! id = Some f →
       furbies (step e s) !! id = Some f
       ∨ ∃ p fluff,
           e = ConnectSucceeded p fluff ∧ uuid p = id
           ∧ furbies (step e s) !! id = Some (new_furby p fluff s)).
Proof.
  split_and!.
  - intros e s.
    destruct (step_furbies e s) as [?|(p & fluff & ? & ? & _ & ? & _)];
      [by left | right; eauto].
  - intros evs id Hid.
    apply run_furbies_origin in Hid as [Hid|?]; [|done].
    simpl in Hid. set_solver.
  - intros id s. unfold step. by destruct (exited s).
  - apply step_dom.
  - intros e s id f Hf.
    destruct (step_furbies e s) as [->|(p & fluff & -> & _ & _ & -> & _)];
      [by left|].
    destruct (decide (uuid p = id)) as [Hp|Hne].
    + right. exists p, fluff. rewrite Hp. by rewrite lookup_insert_eq.
    + left. by rewrite lookup_insert_ne.
Qed.

Lemma refs_below_step e s : refs_below s → refs_below (step e s).
Proof.
  intros Hs k f Hk. pose proof (step_next_ref e s) as Hle.
  destruct (step_furbies e s) as [Heq|(p & fluff & _ & _ & _ & Heq & Hn)];
    rewrite Heq in Hk.
  - apply Hs in Hk. lia.
  - rewrite Hn. destruct (decide (uuid p = k)) as [Hpk|Hne]; [subst k|].
    + rewrite lookup_insert_eq in Hk. injection Hk as <-. simpl. lia.
    + rewrite lookup_insert_ne in Hk by done. apply Hs in Hk. lia.
Qed.

Lemma refs_below_run evs s : refs_below s → refs_below (run evs s).
Proof.
  revert s. induction evs as [|e evs IH]; intros s Hs; [done|].
  rewrite run_cons. by apply IH, refs_below_step.
Qed.

Lemma refs_below_init : refs_below init.
Proof. intros k f Hk. simpl in Hk. by rewrite lookup_empty in Hk. Qed.

Lemma only_at_step n id e s : only_at n id s → only_at n id (step e s).
Proof.
  intros [Hn Hs]. pose proof (step_next_ref e s) as Hle.
  split; [lia|]. intros k f Hk Hf.
  destruct (step_furbies e s) as [Heq|(p & fluff & _ & _ & _ & Heq & _)];
    rewrite Heq in Hk; [by eapply Hs|].
  destruct (decide (uuid p = k)) as [Hpk|Hne]; [subst k|].
  - rewrite lookup_insert_eq in Hk. injection Hk as <-. simpl in Hf. lia.
  - rewrite lookup_insert_ne in Hk by done. by eapply Hs.
Qed.

Lemma only_at_run n id evs s : only_at n id s → only_at n id (run evs s).
Proof.
  revert s. induction evs as [|e evs IH]; intros s Hs; [done|].
  rewrite run_cons. by apply IH, only_at_step.
Qed.

(** C6: the registry insert overwrites.  When the connect callback has
    registered a session under an id and later, whatever happened in
    between, registers another under the same id, looking the id up gives
    the second session, and the first is under no key of the registry. *)
Theorem reconnect_overwrites evs mid p1 fluff1 p2 fluff2 :
  uuid p1 = uuid p2 →
  let id := uuid p1 in
  let s := run evs init in
  let s1 := exec (connect_callback p1 fluff1) s in
  let f1 := new_furby p1 fluff1 s in
  let s2 := exec (connect_callback p2 fluff2) (run mid s1) in
  let f2 := new_furby p2 fluff2 (run mid s1) in
  furbies s1 !! id = Some f1
  ∧ furbies s2 !! id = Some f2
  ∧ furby_fluff f2 = fluff2
  ∧ f1 ≠ f2
  ∧ (∀ k, furbies s2 !! k ≠ Some f1)
  ∧ furbies (exec (connect_callback p2 fluff2) s1)
    = <[id := new_furby p2 fluff2 s1]> (furbies s).
Proof.
  intros Hid id s s1 f1 s2 f2.
  assert (refs_below s) as Hs by apply refs_below_run, refs_below_init.
  assert (only_at (next_ref s) id s1) as H1.
  { split; [simpl; lia|]. intros k f Hk Hf. simpl in Hk.
    destruct (decide (id = k)) as [|Hne]; [done|].
    rewrite lookup_insert_ne in Hk by done. apply Hs in Hk. lia. }
  apply (only_at_run _ _ mid) in H1 as [Hn Hat].
  assert (furby_ref f2 ≠ furby_ref f1) as Href
    by (subst f1 f2; simpl; fold s1; lia).
  split_and!.
  - subst s1 id; simpl. by rewrite lookup_insert_eq.
  - subst s2 id; simpl. rewrite Hid. by rewrite lookup_insert_eq.
  - done.
  - intros Heq. by rewrite Heq in Href.
  - intros k Hk. subst s2; simpl in Hk.
    destruct (decide (uuid p2 = k)) as [Hpk|Hne].
    + subst k. rewrite lookup_insert_eq in Hk. injection Hk as Hk _ _. lia.
    + rewrite lookup_insert_ne in Hk by done.
      apply Hat in Hk; [|done]. apply Hne. by rewrite <- Hid.
  - subst s1 id; simpl. rewrite Hid. by rewrite insert_insert_eq.
Qed.

(** *** Introspect mode *)

Lemma idle_step e s : argv2 = Some "introspect" → idle s → idle (step e s).
Proof.
  intros Hmode (Hf & Hp & Hout). unfold step.
  destruct (exited s); [done|].
  destruct e as [state|p|p fluff|p|id|req].
  - unfold exec. rewrite on_stateChange_eq.
    split_and!; try done. simpl. apply Forall_app. split; [done|].
    by case_bool_decide; repeat constructor.
  - unfold exec. rewrite on_discover_eq. simpl.
    rewrite (bool_decide_true (argv2 = _)) by done.
    case_bool_decide; [|done]. split_and!; try done. simpl.
    apply Forall_app. split; [done|]. by repeat constructor.
  - rewrite Hp. by rewrite bool_decide_false by set_solver.
  - rewrite Hp. by rewrite bool_decide_false by set_solver.
  - done.
  - destruct (serve_eq req s) as (es & r & -> & Hes).
    split_and!; try done. simpl. apply Forall_app. split; [done|].
    eapply Forall_impl; [exact Hes|]. intros e [He| ->]; [|done].
    destruct e; try done. destruct He as [id He].
    by rewrite Hf, lookup_empty in He.
Qed.

Lemma idle_run evs s : argv2 = Some "introspect" → idle s → idle (run evs s).
Proof.
  intros Hmode. revert s. induction evs as [|e evs IH]; intros s Hs; [done|].
  rewrite run_cons. by apply IH, idle_step.
Qed.

(** The process keeps running until a matching discovery arrives. *)
Lemma running_step e s :
  matching e = false → exited s = false → exited (step e s) = false.
Proof.
  intros He Hs. unfold step. rewrite Hs.
  destruct e as [state|p|p fluff|p|id|req]; simpl in He.
  - unfold exec. by rewrite on_stateChange_eq.
  - unfold exec. rewrite on_discover_eq. simpl. by rewrite He.
  - by case_bool_decide.
  - by case_bool_decide.
  - done.
  - by destruct (serve_eq req s) as (es & r & -> & _).
Qed.

Lemma running_run evs s :
  Forall (λ e, matching e = false) evs →
  exited s = false → exited (run evs s) = false.
Proof.
  intros Hevs. revert s.
  induction Hevs as [|e evs He _ IH]; intros s Hs; [done|].
  rewrite run_cons. by apply IH, running_step.
Qed.

(** C7: started in introspect mode, the process answers the first matching
    discovery by introspecting that peripheral and exits, after which no
    event has any effect; at no time does it start a connect, register a
    session or execute a command.  The mode is [process.argv[2]], fixed
    when the process starts. *)
Theorem introspect_mode_short_circuits pre p post :
  argv2 = Some "introspect" →
  Forall (λ e, matching e = false) pre →
  localName p = Some "Furby" →
  let s0 := run pre init in
  let s1 := run (pre ++ [Discovered p]) init in
  out s1 = out s0 ++ [log_discovered p; Introspect p]
  ∧ exited s1 = true
  ∧ run (pre ++ Discovered p :: post) init = s1
  ∧ ∀ evs, idle (run evs init).
Proof.
  intros Hmode Hpre Hp s0 s1.
  assert (exited s0 = false) as Hrunning by by apply running_run.
  assert (s1 = set_exited true (add_effects [log_discovered p; Introspect p] s0))
    as Hs1.
  { subst s1. rewrite run_snoc. fold s0. unfold step. rewrite Hrunning.
    unfold exec. rewrite on_discover_eq. simpl.
    by rewrite !bool_decide_true by done. }
  split_and!.
  - by rewrite Hs1.
  - by rewrite Hs1.
  - change (pre ++ Discovered p :: post) with (pre ++ [Discovered p] ++ post).
    rewrite app_assoc, run_app. fold s1. apply run_exited. by rewrite Hs1.
  - intros evs. apply idle_run; [done|]. by repeat split.
Qed.

(** X14: outside introspect mode the process never introspects and never
    exits: without [introspect] as [process.argv[2]], no run of events
    calls [fluffcon.introspect] or ends the process. *)
Lemma normal_mode_never_introspects evs :
  argv2 ≠ Some "introspect" →
  exited (run evs init) = false
  ∧ ∀ q, Introspect q ∉ out (run evs init).
Proof.
  intros Hmode.
  assert (∀ s, exited s = false ∧ (∀ q, Introspect q ∉ out s) →
               exited (run evs s) = false
               ∧ ∀ q, Introspect q ∉ out (run evs s)) as Hgen.
  { induction evs as [|e evs IH]; intros s Hs; [done|].
    rewrite run_cons. apply IH. destruct Hs as [Hex Hout].
    unfold step. rewrite Hex.
    destruct e as [state|p|p fluff|p|id|req].
    - unfold exec. rewrite on_stateChange_eq.
      split; [done|]. intros q. simpl. rewrite elem_of_app.
      intros [?|Hq]; [by eapply Hout|]. case_bool_decide; set_solver.
    - unfold exec. rewrite on_discover_eq. simpl.
      rewrite (bool_decide_false (argv2 = _)) by done.
      case_bool_decide; [|done]. split; [done|]. intros q. simpl.
      rewrite elem_of_app. intros [?|Hq]; [by eapply Hout|].
      unfold log_discovered in Hq. set_solver.
    - by case_bool_decide.
    - by case_bool_decide.
    - done.
    - destruct (serve_eq req s) as (es & r & -> & Hes).
      split; [done|]. intros q. simpl. rewrite elem_of_app.
      intros [?|Hq]; [by eapply Hout|].
      rewrite Forall_forall in Hes. apply Hes in Hq as [Hq|Hq]; done. }
  apply Hgen. split; [done|]. intros q. simpl. set_solver.
Qed.

(** *** The path of a request *)

Lemma split_slashless a : slashless a = true → split "/" a = [a].
Proof.
  induction a as [|c a IH]; simpl; [done|].
  destruct (Ascii.eqb c "/"); simpl; [done|]. intros Ha. by rewrite IH.
Qed.

Lemma split_segment a r :
  slashless a = true → split "/" (a +:+ String "/" r) = a :: split "/" r.
Proof.
  induction a as [|c a IH]; simpl; [done|].
  destruct (Ascii.eqb c "/"); simpl; [done|]. intros Ha. by rewrite IH.
Qed.

Lemma join_head sep c h t :
  join sep (String c h :: t) = String c (join sep (h :: t)).
Proof. by destruct t. Qed.

(** Splitting at the slashes loses nothing. *)
Lemma join_split s : join "/" (split "/" s) = s.
Proof.
  induction s as [|c s IH]; simpl; [done|].
  destruct (Ascii.eqb c "/") eqn:Hc.
  - apply Ascii.eqb_eq in Hc as ->.
    destruct (split_cons "/" s) as (h & t & Hs). rewrite Hs in *.
    simpl. by rewrite <- IH.
  - destruct (split_cons "/" s) as (h & t & Hs). rewrite Hs in *.
    by rewrite join_head, IH.
Qed.

(** X1: the listener reads the route off the first path segment and the
    command name off the second; whatever follows a third slash is kept
    whole as the last entry of [query], and a missing segment is empty. *)
Theorem query_of_segments a b c :
  slashless a = true →
  slashless b = true →
  query_of ("/" +:+ a) = [a; ""]
  ∧ query_of ("/" +:+ a +:+ "/" +:+ b) = [a; b; ""]
  ∧ query_of ("/" +:+ a +:+ "/" +:+ b +:+ "/" +:+ c) = [a; b; c].
Proof.
  intros Ha Hb. unfold query_of.
  change (substring1 ("/" +:+ a)) with a.
  change (substring1 ("/" +:+ a +:+ "/" +:+ b)) with (a +:+ String "/" b).
  change (substring1 ("/" +:+ a +:+ "/" +:+ b +:+ "/" +:+ c))
    with (a +:+ String "/" (b +:+ String "/" c)).
  split_and!.
  - by rewrite split_slashless.
  - by rewrite split_segment, split_slashless.
  - rewrite !split_segment by done. simpl. by rewrite drop_0, join_split.
Qed.

(** *** Every request *)

(** The three ways the [end] callback can go: the command is dispatched
    and the response ends with "ok"; the target is not found and the
    response is ended twice; or an exception is caught and the response
    ends with its text.  Only the first executes anything. *)
Lemma parsePostCommand_end_cases name text s r :
  (∃ es, parsePostCommand_end name text (s, r)
         = (Normal tt, (add_effects es s, add_end (Some "ok") r))
         ∧ Forall (command_effect name text s) es)
  ∨ (∃ es, parsePostCommand_end name text (s, r)
           = (Normal tt,
              (add_effects es s,
               add_end (Some "ok")
                 (add_end (Some "error: could not find target") r)))
           ∧ Forall (command_effect name text s) es
           ∧ executions es = [])
  ∨ (∃ e es, parsePostCommand_end name text (s, r)
             = (Normal tt,
                (add_effects es s,
                 add_end (Some ("error: " +:+ error_to_string e)) r))
             ∧ Forall (command_effect name text s) es
             ∧ executions es = []).
Proof.
  destruct (JSON_parse text) as [commandData|e] eqn:Hparse.
  2: { right; right. eexists _, _. split_and!;
       [by erewrite parsePostCommand_end_unparsed | by repeat constructor
       | done]. }
  destruct (js_in "target" commandData) as [[|]|e] eqn:Hin.
  3: { right; right. eexists _, _. split_and!;
       [by erewrite parsePostCommand_end_not_object | by repeat constructor
       | done]. }
  2: { left. eexists. split; [by erewrite parsePostCommand_end_broadcast|].
       constructor; [done|]. apply Forall_fmap, Forall_forall.
       intros [id f] Hel. simpl. split_and!; [done | | by eauto].
       exists id. by apply elem_of_map_to_list. }
  destruct (to_string_opt (get_field "target" commandData)) as [id|e] eqn:Hid.
  2: { right; right. eexists _, _. split_and!;
       [erewrite parsePostCommand_end_unprintable; eauto
       | by repeat constructor | done]. }
  destruct (to_string_opt (get_field "params" commandData)) as [ps|e] eqn:Hps.
  2: { right; right. eexists _, _. split_and!;
       [erewrite parsePostCommand_end_unprintable; eauto
       | by repeat constructor | done]. }
  destruct (furbies s !! id) as [furby|] eqn:Hfurby.
  { left. eexists. split; [by erewrite parsePostCommand_end_present|].
    repeat constructor; simpl; eauto. }
  destruct (inherited id) eqn:Hinh.
  { right; right. eexists _, _. split_and!;
      [by erewrite parsePostCommand_end_inherited | by repeat constructor
      | done]. }
  right; left. eexists. split_and!.
  - erewrite parsePostCommand_end_absent; eauto.
    unfold in_furbies. rewrite Hfurby, Hinh.
    by rewrite bool_decide_false by (by intros [? ?]).
  - by repeat constructor.
  - done.
Qed.

(** What the listener does with anything but a POST to [/cmd]. *)
Lemma handler_not_post_cmd req s r :
  ¬ (query_of (url req) !! 0 = Some "cmd" ∧ method req = "POST") →
  handler req (s, r)
  = (Normal tt,
     if bool_decide (query_of (url req) !! 0 = Some "cmd")
     then (s, add_end None (set_head r))
     else if bool_decide (query_of (url req) !! 0 = Some "list")
     then (s, add_end (Some fluffaction_list_json) (set_head r))
     else if bool_decide (query_of (url req) !! 0 = Some "scan")
     then (add_effects [StartScanning] s, add_end (Some "scanning") r)
     else (s, add_end None (set_head r))).
Proof.
  intros Hpost. unfold handler. case_bool_decide as Hcmd.
  { destruct (String.eqb (method req) "POST") eqn:Hm.
    - apply String.eqb_eq in Hm. by destruct Hpost.
    - by js_run. }
  repeat case_bool_decide; by js_run.
Qed.


(** X4: a request leaves the process alone.  It changes neither the
    registry nor the connects in flight, the allocation counter or the
    exit flag; what it adds to the log are log lines, the scan restart of
    [/scan], and executions, each on a session registered when the request
    is handled, under the command name of the URL and with the params of
    the parsed body. *)
Theorem request_leaves_process_alone req s :
  let s' := (handler req (s, fresh_response)).2.1 in
  furbies s' = furbies s
  ∧ next_ref s' = next_ref s
  ∧ pending s' = pending s
  ∧ exited s' = exited s
  ∧ Forall (request_effect req s) (effects_of (handler req) s).
Proof.
  unfold effects_of.
  destruct (decide (query_of (url req) !! 0 = Some "cmd"
                    ∧ method req = "POST")) as [[Hcmd Hm]|Hpost].
  - rewrite handler_post_cmd by done.
    destruct (parsePostCommand_end_cases
                (default "" (query_of (url req) !! 1)) (body_of req)
                s (set_head fresh_response))
      as [(es & -> & Hes)|[(es & -> & Hes & _)|(e & es & -> & Hes & _)]];
      simpl; rewrite drop_app_length; split_and!; try done;
      (eapply Forall_impl; [exact Hes|]); by left.
  - rewrite handler_not_post_cmd by done.
    repeat case_bool_decide; simpl;
      rewrite ?drop_app_length, ?drop_all; split_and!; try done.
    apply Forall_singleton. by right.
Qed.

(** X5: an error answer means that nothing was executed.  Whenever the
    text the caller receives begins with "error:", no session has been
    given the command. *)
Theorem error_answer_means_nothing_executed req s body :
  sent_body (response_of (handler req) s) = Some body →
  String.prefix "error:" body = true →
  executions (effects_of (handler req) s) = [].
Proof.
  unfold response_of, effects_of.
  destruct (decide (query_of (url req) !! 0 = Some "cmd"
                    ∧ method req = "POST")) as [[Hcmd Hm]|Hpost].
  - rewrite handler_post_cmd by done.
    destruct (parsePostCommand_end_cases
                (default "" (query_of (url req) !! 1)) (body_of req)
                s (set_head fresh_response))
      as [(es & -> & _)|[(es & -> & _ & Hes)|(e & es & -> & _ & Hes)]];
      simpl; rewrite drop_app_length; try done.
    intros [= <-]. done.
  - rewrite handler_not_post_cmd by done.
    repeat case_bool_decide; simpl;
      by rewrite ?drop_app_length, ?drop_all.
Qed.

(** X6: apart from a POST to [/cmd] and from [/scan], a request has no
    effect at all.  It is answered once, under status 200 with the CORS
    header: with the command catalogue on [/list], whatever the registry
    holds, and with an empty body otherwise, as is a request to [/cmd]
    that is no POST. *)
Theorem other_requests_have_no_effect req s :
  ¬ (query_of (url req) !! 0 = Some "cmd" ∧ method req = "POST") →
  query_of (url req) !! 0 ≠ Some "scan" →
  effects_of (handler req) s = []
  ∧ head (response_of (handler req) s) = Some (200, cors_headers)
  ∧ end_calls (response_of (handler req) s)
    = [if bool_decide (query_of (url req) !! 0 = Some "list")
       then Some fluffaction_list_json else None].
Proof.
  intros Hpost Hscan. unfold effects_of, response_of.
  rewrite handler_not_post_cmd by done.
  rewrite (bool_decide_false (_ = Some "scan")) by done.
  case_bool_decide as Hcmd.
  - rewrite bool_decide_false by (by rewrite Hcmd).
    simpl. by rewrite drop_all.
  - case_bool_decide; simpl; by rewrite drop_all.
Qed.

(** The [/scan] route restarts the scan for every method, body and
    trailing path: one [startScanning], the answer "scanning", and
    nothing else. *)
Lemma scan_route_restarts_scan req s :
  query_of (url req) !! 0 = Some "scan" →
  effects_of (handler req) s = [StartScanning]
  ∧ end_calls (response_of (handler req) s) = [Some "scanning"]
  ∧ furbies_after (handler req) s = furbies s.
Proof.
  intros Hscan. unfold effects_of, response_of, furbies_after.
  rewrite handler_not_post_cmd by (by rewrite Hscan; intros [[=] _]).
  rewrite !bool_decide_false by (by rewrite Hscan).
  rewrite bool_decide_true by done. simpl. by rewrite drop_app_length.
Qed.

(** *** A command for one target *)

(** X7: a command for a registered target goes to that target alone.
    When the request names a target that renders to a registered id, and
    its params can be rendered for the log line, the command is executed
    once, on the session registered under that id, with the name of the
    URL and the params of the body (undefined when the body has none); the
    answer is "ok" and the registry is as before. *)
Theorem targeted_command_reaches_target_only
  req commandData id ps furby s :
  query_of (url req) !! 0 = Some "cmd" →
  method req = "POST" →
  JSON_parse (body_of req) = Normal commandData →
  js_in "target" commandData = Normal true →
  to_string_opt (get_field "target" commandData) = Normal id →
  to_string_opt (get_field "params" commandData) = Normal ps →
  furbies s !! id = Some furby →
  executions (effects_of (handler req) s)
  = [(furby, default "" (query_of (url req) !! 1),
      get_field "params" commandData)]
  ∧ end_calls (response_of (handler req) s) = [Some "ok"]
  ∧ furbies_after (handler req) s = furbies s.
Proof.
  intros Hq Hm Hparse Hin Hid Hps Hfurby.
  pose proof (handler_post_cmd req s fresh_response Hq Hm) as Hrun.
  rewrite (parsePostCommand_end_present _ _ _ _ _ _ _ _
             Hparse Hin Hid Hps Hfurby) in Hrun.
  by apply observe in Hrun as (-> & -> & ->).
Qed.

(** X8: a target that is no registered id but the name of a property of
    [Object.prototype] is not reported as missing.  When target and params
    can be rendered for the log line, the lookup finds the inherited
    property, calling its [do] throws, and the one answer is the text of
    that TypeError.  Nothing is executed. *)
Theorem inherited_name_is_answered_with_type_error
  req commandData id ps s :
  query_of (url req) !! 0 = Some "cmd" →
  method req = "POST" →
  JSON_parse (body_of req) = Normal commandData →
  js_in "target" commandData = Normal true →
  to_string_opt (get_field "target" commandData) = Normal id →
  to_string_opt (get_field "params" commandData) = Normal ps →
  furbies s !! id = None →
  inherited id = true →
  end_calls (response_of (handler req) s)
  = [Some "error: TypeError: furbies[furbyId].do is not a function"]
  ∧ executions (effects_of (handler req) s) = [].
Proof.
  intros Hq Hm Hparse Hin Hid Hps Hnone Hinh.
  pose proof (handler_post_cmd req s fresh_response Hq Hm) as Hrun.
  rewrite (parsePostCommand_end_inherited _ _ _ _ _ _ _
             Hparse Hin Hid Hps Hnone Hinh) in Hrun.
  by apply observe in Hrun as (-> & -> & _).
Qed.

(** X9: a request whose target or params cannot be rendered as a string
    is refused before the registry is looked at.  The log line of the
    targeted branch is built first; when rendering the target, or
    otherwise the params, throws, the answer is the text of that error and
    nothing is executed, registered target or not. *)
Theorem unprintable_request_is_refused req commandData e s :
  query_of (url req) !! 0 = Some "cmd" →
  method req = "POST" →
  JSON_parse (body_of req) = Normal commandData →
  js_in "target" commandData = Normal true →
  to_string_opt (get_field "target" commandData) = Throw e
  ∨ (∃ id, to_string_opt (get_field "target" commandData) = Normal id)
    ∧ to_string_opt (get_field "params" commandData) = Throw e →
  end_calls (response_of (handler req) s)
  = [Some ("error: " +:+ error_to_string e)]
  ∧ executions (effects_of (handler req) s) = []
  ∧ furbies_after (handler req) s = furbies s.
Proof.
  intros Hq Hm Hparse Hin Hthrow.
  pose proof (handler_post_cmd req s fresh_response Hq Hm) as Hrun.
  rewrite (parsePostCommand_end_unprintable _ _ _ _ _ _
             Hparse Hin Hthrow) in Hrun.
  by apply observe in Hrun as (-> & -> & ->).
Qed.

(** *** Discovery, connects and the registry over a run *)

Lemma remove_first_subseteq p l q : q ∈ remove_first p l → q ∈ l.
Proof.
  induction l as [|x l IH]; simpl; [done|].
  case_bool_decide; rewrite !elem_of_cons; naive_solver.
Qed.

(** A connect gets in flight only by a matching discovery outside
    introspect mode. *)
Lemma step_pending e s q :
  q ∈ pending (step e s) →
  q ∈ pending s
  ∨ (e = Discovered q ∧ localName q = Some "Furby"
     ∧ argv2 ≠ Some "introspect").
Proof.
  unfold step. destruct (exited s); [by left|].
  destruct e as [state|p|p fluff|p|id|req].
  - unfold exec. rewrite on_stateChange_eq. by left.
  - unfold exec. rewrite on_discover_eq. simpl.
    repeat case_bool_decide; simpl; try by left.
    rewrite elem_of_app, list_elem_of_singleton. intros [Hq| ->]; eauto.
  - case_bool_decide; [|by left]. simpl. intros Hq. left.
    by eapply remove_first_subseteq.
  - case_bool_decide; [|by left]. simpl. intros Hq. left.
    by eapply remove_first_subseteq.
  - by left.
  - destruct (serve_eq req s) as (es & r & -> & _). by left.
Qed.

Lemma furby_discoveries_app evs1 evs2 :
  furby_discoveries (evs1 ++ evs2)
  = furby_discoveries evs1 ++ furby_discoveries evs2.
Proof. apply omap_app. Qed.

Lemma furby_discoveries_one p :
  localName p = Some "Furby" → p ∈ furby_discoveries [Discovered p].
Proof.
  intros Hp. unfold furby_discoveries. simpl.
  rewrite bool_decide_true by done. by left.
Qed.

Lemma pending_were_discovered evs q :
  q ∈ pending (run evs init) →
  q ∈ furby_discoveries evs ∧ argv2 ≠ Some "introspect".
Proof.
  induction evs as [|e evs IH] using rev_ind; simpl; [set_solver|].
  rewrite run_snoc, furby_discoveries_app. intros Hq.
  apply step_pending in Hq as [Hq|(-> & Hname & Hmode)].
  - apply IH in Hq as [? ?]. split; [|done]. apply elem_of_app. by left.
  - split; [|done]. apply elem_of_app. right.
    by apply furby_discoveries_one.
Qed.

(** X10: only discovered Furbies get registered.  Every id in the
    registry is the uuid of a peripheral whose connect succeeded after it
    had been discovered under the advertised name "Furby", in a process
    that is not in introspect mode. *)
Theorem registered_peripherals_were_discovered evs id :
  id ∈ dom (furbies (run evs init)) →
  argv2 ≠ Some "introspect"
  ∧ ∃ p fluff pre later,
      evs = pre ++ ConnectSucceeded p fluff :: later
      ∧ p ∈ furby_discoveries pre
      ∧ uuid p = id.
Proof.
  induction evs as [|e evs IH] using rev_ind; simpl; [set_solver|].
  rewrite run_snoc. intros Hid.
  destruct (step_furbies e (run evs init))
    as [Heq|(p & fluff & -> & Hp & _ & Heq & _)]; rewrite Heq in Hid.
  - apply IH in Hid as (Hmode & p & fluff & pre & later & -> & Hp & Hu).
    split; [done|]. exists p, fluff, pre, (later ++ [e]).
    by rewrite <- app_assoc.
  - apply pending_were_discovered in Hp as [Hp Hmode]. split; [done|].
    rewrite dom_insert_L in Hid. apply elem_of_union in Hid as [Hid|Hid].
    + exists p, fluff, evs, []. split_and!; [done | done | set_solver].
    + apply IH in Hid as (_ & p' & fluff' & pre & later & -> & Hp' & Hu).
      exists p', fluff', pre, (later ++ [ConnectSucceeded p fluff]).
      by rewrite <- app_assoc.
Qed.

Lemma well_formed_new p fluff s :
  furby_uuid (new_furby p fluff s) = uuid p
  ∧ furby_commands (new_furby p fluff s) = Some fluffaction_commands
  ∧ furby_ref (new_furby p fluff s) = next_ref s.
Proof. done. Qed.

(** X11: the registry holds each session under its own uuid, with the
    command table learned, and never the same session under two ids: in
    every state the process reaches, sessions under different ids are
    different objects. *)
Theorem registry_entries_are_well_formed evs id f :
  furbies (run evs init) !! id = Some f →
  well_formed_entry (run evs init) id f
  ∧ ∀ id' f',
      furbies (run evs init) !! id' = Some f' →
      furby_ref f' = furby_ref f → id' = id.
Proof.
  revert id f. induction evs as [|e evs IH] using rev_ind; intros id f.
  { simpl. by rewrite lookup_empty. }
  rewrite run_snoc. set (s := run evs init) in *.
  pose proof (step_next_ref e s) as Hle.
  destruct (step_furbies e s)
    as [Heq|(p & fluff & -> & _ & _ & Heq & Hn)]; rewrite Heq.
  - intros Hf. destruct (IH _ _ Hf) as ((Hu & Hc & Hr) & Hinj).
    split; [split_and!; [done | done | lia] | done].
  - assert (∀ k g, furbies s !! k = Some g → furby_ref g < next_ref s)
      as Hbelow by (intros k g Hg; by destruct (IH _ _ Hg) as ((_ & _ & ?) & _)).
    destruct (decide (uuid p = id)) as [Hpid|Hne].
    + subst id. rewrite lookup_insert_eq. intros [= <-].
      split; [split_and!; [done | done | simpl; lia]|].
      intros id' f'. destruct (decide (uuid p = id')) as [|Hne]; [done|].
      rewrite lookup_insert_ne by done. intros Hf' Href.
      apply Hbelow in Hf'. simpl in Href. lia.
    + rewrite lookup_insert_ne by done. intros Hf.
      destruct (IH _ _ Hf) as ((Hu & Hc & Hr) & Hinj).
      split; [split_and!; [done | done | lia]|].
      intros id' f'. destruct (decide (uuid p = id')) as [Hpid|Hne'].
      * subst id'. rewrite lookup_insert_eq. intros [= <-] Href.
        simpl in Href. lia.
      * rewrite lookup_insert_ne by done. apply Hinj.
Qed.

(** Outside introspect mode nothing makes the process exit. *)
Lemma normal_mode_running evs s :
  argv2 ≠ Some "introspect" →
  exited s = false → exited (run evs s) = false.
Proof.
  intros Hmode. revert s. induction evs as [|e evs IH]; intros s Hs; [done|].
  rewrite run_cons. apply IH. unfold step. rewrite Hs.
  destruct e as [state|p|p fluff|p|id|req].
  - unfold exec. by rewrite on_stateChange_eq.
  - unfold exec. rewrite on_discover_eq. simpl.
    rewrite (bool_decide_false (argv2 = _)) by done. by case_bool_decide.
  - by case_bool_decide.
  - by case_bool_decide.
  - done.
  - by destruct (serve_eq req s) as (es & r & -> & _).
Qed.

Lemma connects_app l1 l2 : connects (l1 ++ l2) = connects l1 ++ connects l2.
Proof. apply omap_app. Qed.

Lemma connects_quiet es : Forall quiet es → connects es = [].
Proof.
  induction 1 as [|e es He _ IH]; [done|].
  unfold connects in *. cbn [omap list_omap]. rewrite IH. by destruct e.
Qed.

Lemma connects_handler es s : Forall (handler_effect s) es → connects es = [].
Proof.
  induction 1 as [|e es He _ IH]; [done|].
  unfold connects in *. cbn [omap list_omap]. rewrite IH.
  destruct He as [He| ->]; [|done]. by destruct e.
Qed.

(** X12: the connects the process starts are the matching discoveries, one
    for one and in order: every discovery of a peripheral advertised as
    "Furby" starts a connect, registered already or not, and nothing else
    does; a connect that failed is not tried again.  In introspect mode no
    connect is ever started. *)
Theorem connects_follow_discoveries evs :
  connects (out (run evs init))
  = if bool_decide (argv2 = Some "introspect") then []
    else furby_discoveries evs.
Proof.
  case_bool_decide as Hmode.
  { apply connects_quiet. by apply idle_run. }
  induction evs as [|e evs IH] using rev_ind; [done|].
  rewrite run_snoc, furby_discoveries_app, <- IH.
  pose proof (normal_mode_running evs init Hmode eq_refl) as Hrun.
  set (s := run evs init) in *. unfold step. rewrite Hrun.
  destruct e as [state|p|p fluff|p|id|req]; simpl.
  - unfold exec. rewrite on_stateChange_eq. simpl.
    rewrite connects_app. by case_bool_decide.
  - unfold exec. rewrite on_discover_eq. simpl.
    rewrite (bool_decide_false (argv2 = _)) by done.
    case_bool_decide; simpl; [|by rewrite app_nil_r].
    by rewrite connects_app.
  - rewrite app_nil_r. by case_bool_decide.
  - rewrite app_nil_r. by case_bool_decide.
  - by rewrite app_nil_r.
  - destruct (serve_eq req s) as (es & r & -> & Hes). simpl.
    by rewrite connects_app, (connects_handler es s).
Qed.

Lemma step_discovered_normal p s :
  argv2 ≠ Some "introspect" →
  exited s = false →
  localName p = Some "Furby" →
  step (Discovered p) s
  = set_pending (pending s ++ [p])
      (add_effects [log_discovered p; Connect p] s).
Proof.
  intros Hmode Hrun Hname. unfold step. rewrite Hrun.
  unfold exec. rewrite on_discover_eq. simpl.
  by rewrite bool_decide_true, bool_decide_false by done.
Qed.

(** X13: from discovery to command.  In a running process outside
    introspect mode, once a peripheral advertised as "Furby" has been
    discovered and its connect has succeeded, it is registered under its
    uuid with the connection it was given, and a command that names this
    uuid as its target, and whose params can be rendered for the log
    line, is executed on that session and on no other. *)
Theorem discovered_furby_takes_commands
  p fluff req commandData ps s :
  argv2 ≠ Some "introspect" →
  exited s = false →
  localName p = Some "Furby" →
  query_of (url req) !! 0 = Some "cmd" →
  method req = "POST" →
  JSON_parse (body_of req) = Normal commandData →
  js_in "target" commandData = Normal true →
  to_string_opt (get_field "target" commandData) = Normal (uuid p) →
  to_string_opt (get_field "params" commandData) = Normal ps →
  let s' := run [Discovered p; ConnectSucceeded p fluff] s in
  ∃ furby,
    furbies s' !! uuid p = Some furby
    ∧ furby_fluff furby = fluff
    ∧ executions (effects_of (handler req) s')
      = [(furby, default "" (query_of (url req) !! 1),
          get_field "params" commandData)]
    ∧ end_calls (response_of (handler req) s') = [Some "ok"].
Proof.
  intros Hmode Hrun Hname Hq Hm Hparse Hin Hid Hps s'.
  assert (∃ furby, furbies s' !! uuid p = Some furby
                   ∧ furby_fluff furby = fluff) as (furby & Hfurby & Hfluff).
  { subst s'. rewrite !run_cons.
    rewrite (step_discovered_normal p s) by done.
    change (run [] ?x) with x. unfold step. simpl. rewrite Hrun.
    rewrite bool_decide_true by (apply elem_of_app; right; by left).
    simpl. eexists. by rewrite lookup_insert_eq. }
  exists furby.
  pose proof (handler_post_cmd req s' fresh_response Hq Hm) as Hreq.
  rewrite (parsePostCommand_end_present _ _ _ _ _ _ _ _
             Hparse Hin Hid Hps Hfurby) in Hreq.
  apply observe in Hreq as (Heff & Hres & _).
  by rewrite Heff, Hres.
Qed.

(** *** Scanning over a run *)

Lemma scan_commands_app l1 l2 :
  scan_commands (l1 ++ l2) = scan_commands l1 ++ scan_commands l2.
Proof. apply omap_app. Qed.

Lemma scan_commands_command name text s es :
  Forall (command_effect name text s) es → scan_commands es = [].
Proof.
  induction 1 as [|e es He _ IH]; [done|].
  unfold scan_commands in *. cbn [omap list_omap]. rewrite IH. by destruct e.
Qed.

Lemma serve_scan_commands req s :
  ∃ es r, serve req s = add_reply r (add_effects es s)
          ∧ scan_commands es
            = if bool_decide (query_of (url req) !! 0 = Some "scan")
              then [true] else [].
Proof.
  unfold serve.
  destruct (decide (query_of (url req) !! 0 = Some "cmd"
                    ∧ method req = "POST")) as [[Hcmd Hm]|Hpost].
  - rewrite handler_post_cmd by done.
    rewrite bool_decide_false by (by rewrite Hcmd).
    destruct (parsePostCommand_end_cases
                (default "" (query_of (url req) !! 1)) (body_of req)
                s (set_head fresh_response))
      as [(es & -> & Hes)|[(es & -> & Hes & _)|(e & es & -> & Hes & _)]];
      simpl; eexists _, _; (split; [done|]);
      by eapply scan_commands_command.
  - rewrite handler_not_post_cmd by done.
    case_bool_decide as Hcmd.
    { rewrite bool_decide_false by (by rewrite Hcmd).
      exists [], (add_end None (set_head fresh_response)).
      by rewrite add_effects_nil. }
    case_bool_decide as Hlist.
    { rewrite bool_decide_false by (by rewrite Hlist).
      eexists [], _. by rewrite add_effects_nil. }
    case_bool_decide.
    + by eexists [StartScanning], _.
    + eexists [], _. by rewrite add_effects_nil.
Qed.

(** X15: scanning follows the adapter and nothing else stops it.  Outside
    introspect mode the scan commands the process gives are, one for one
    and in order, a start for every notification [poweredOn], a stop for
    every other notification, and a start for every request to [/scan];
    discovering or connecting a Furby never starts or stops the scan. *)
Theorem scanning_follows_requests evs :
  argv2 ≠ Some "introspect" →
  scan_commands (out (run evs init)) = scan_requests evs.
Proof.
  intros Hmode. induction evs as [|e evs IH] using rev_ind; [done|].
  unfold scan_requests in *. rewrite run_snoc, omap_app, <- IH.
  pose proof (normal_mode_running evs init Hmode eq_refl) as Hrun.
  set (s := run evs init) in *. unfold step. rewrite Hrun.
  destruct e as [state|p|p fluff|p|id|req]; simpl.
  - unfold exec. rewrite on_stateChange_eq. simpl.
    rewrite scan_commands_app. by case_bool_decide.
  - unfold exec. rewrite on_discover_eq. simpl.
    rewrite (bool_decide_false (argv2 = _)) by done.
    case_bool_decide; simpl; [|by rewrite app_nil_r].
    by rewrite scan_commands_app.
  - rewrite app_nil_r. by case_bool_decide.
  - rewrite app_nil_r. by case_bool_decide.
  - by rewrite app_nil_r.
  - destruct (serve_scan_commands req s) as (es & r & -> & Hes). simpl.
    rewrite scan_commands_app, Hes. by case_bool_decide.
Qed.

(** *** Entries over a run *)

(** X16: a session stays registered, as it is, until a connect for the
    same uuid succeeds: no request, notification, discovery, disconnect or
    connect for another peripheral touches the entry. *)
Theorem entry_stays_until_reconnect evs s id f :
  furbies s !! id = Some f →
  Forall (λ e, connects_for id e = false) evs →
  furbies (run evs s) !! id = Some f.
Proof.
  intros Hf Hevs. revert s Hf.
  induction Hevs as [|e evs He _ IH]; intros s Hf; [done|].
  rewrite run_cons. apply IH.
  destruct (step_furbies e s) as [->|(p & fluff & -> & _ & _ & -> & _)];
    [done|].
  simpl in He. apply bool_decide_eq_false in He.
  by rewrite lookup_insert_ne.
Qed.

(** *** An array as body *)

(** X17: a body that parses to an array is taken for a command without
    target and without params: it is broadcast to every registered session
    with undefined params, and answered "ok". *)
Theorem array_body_reaches_every_session req elems s :
  query_of (url req) !! 0 = Some "cmd" →
  method req = "POST" →
  JSON_parse (body_of req) = Normal (JArray elems) →
  executions (effects_of (handler req) s)
    ≡ₚ (λ kv, (kv.2, default "" (query_of (url req) !! 1), None))
         <$> map_to_list (furbies s)
  ∧ end_calls (response_of (handler req) s) = [Some "ok"].
Proof.
  intros Hq Hm Hparse.
  pose proof (handler_post_cmd req s fresh_response Hq Hm) as Hrun.
  rewrite (parsePostCommand_end_broadcast _ _ _ _ _ Hparse eq_refl) in Hrun.
  apply observe in Hrun as (-> & -> & _). split; [|done].
  by rewrite <- executions_do.
Qed.

End Server.

(** ** The scenarios, run

    Connections and the command table are numbered handles, the catalogue
    is empty and request bodies go through the reference parser. *)
Abbreviation run_normal :=
  (run (Fluff:=nat) (Commands:=nat) 0 "[]" parse_fragment None).
Abbreviation run_introspect :=
  (run (Fluff:=nat) (Commands:=nat) 0 "[]" parse_fragment (Some "introspect")).
Abbreviation serve_sample := (handler (Fluff:=nat) (Commands:=nat) "[]" parse_fragment).
Abbreviation registry_ab :=
  (run_normal [Discovered furby_ab; ConnectSucceeded furby_ab 1] init).
Abbreviation registry_ab_cd :=
  (run_normal [Discovered furby_ab; ConnectSucceeded furby_ab 1;
               Discovered furby_cd; ConnectSucceeded furby_cd 2] init).
Abbreviation session_ab := (Furby_learn 0 (Furby_new 0 "AA:BB" 1)).
Abbreviation session_cd := (Furby_learn 0 (Furby_new 1 "CC:DD" 2)).

Example registry_ab_cd_entries :
  map_to_list (furbies registry_ab_cd)
  ≡ₚ [("AA:BB", session_ab); ("CC:DD", session_cd)].
Proof.
  apply NoDup_Permutation.
  - apply NoDup_map_to_list.
  - by repeat (constructor; [set_solver|]); constructor.
  - intros [k f]. rewrite elem_of_map_to_list. simpl.
    rewrite !elem_of_cons, elem_of_nil.
    destruct (decide (k = "CC:DD")) as [->|Hcd].
    { rewrite lookup_insert_eq. naive_solver. }
    rewrite lookup_insert_ne by done.
    destruct (decide (k = "AA:BB")) as [->|Hab].
    { rewrite lookup_insert_eq. naive_solver. }
    rewrite lookup_insert_ne, lookup_empty by done. naive_solver.
Qed.

(** Scenario A *)
Example broadcast_scenario :
  let req := post "/cmd/wiggle" "{}" in
  executions (effects_of (serve_sample req) init) = []
  ∧ end_calls (response_of (serve_sample req) init) = [Some "ok"].
Proof. by vm_compute. Qed.

(** A broadcast to the two sessions of scenario B. *)
Lemma broadcast_witness :
  let req := post "/cmd/wiggle" "{}" in
  (query_of (url req) !! 0 = Some "cmd"
   ∧ method req = "POST"
   ∧ parse_fragment (body_of req) = Normal (JObject [])
   ∧ js_in "target" (JObject []) = Normal false)
  ∧ executions (effects_of (serve_sample req) registry_ab_cd)
    ≡ₚ [(session_ab, "wiggle", None); (session_cd, "wiggle", None)]
  ∧ sent_body (response_of (serve_sample req) registry_ab_cd) = Some "ok".
Proof.
  intros req.
  assert (query_of (url req) !! 0 = Some "cmd") as H1 by reflexivity.
  assert (method req = "POST") as H2 by reflexivity.
  assert (parse_fragment (body_of req) = Normal (JObject [])) as H3
    by reflexivity.
  assert (js_in "target" (JObject []) = Normal false) as H4 by reflexivity.
  split; [done|].
  destruct (broadcast_executes_once_per_entry "[]" parse_fragment req
              (JObject []) registry_ab_cd H1 H2 H3 H4)
    as (Hperm & _ & _ & Hbody & _).
  split; [|exact Hbody].
  etrans; [exact Hperm|].
  etrans; [apply fmap_Permutation, registry_ab_cd_entries|]. done.
Defined.

(** Scenario B *)
Example targeted_scenario :
  let req := post "/cmd/feed" (body_target "AA:BB") in
  executions (effects_of (serve_sample req) registry_ab_cd)
  = [(session_ab, "feed", None)]
  ∧ end_calls (response_of (serve_sample req) registry_ab_cd) = [Some "ok"].
Proof. by vm_compute. Qed.

(** Scenario C *)
Lemma absent_target_witness :
  let req := post "/cmd/feed" (body_target "ZZ:ZZ") in
  let commandData := JObject [("target", JString "ZZ:ZZ")] in
  (query_of (url req) !! 0 = Some "cmd"
   ∧ method req = "POST"
   ∧ parse_fragment (body_of req) = Normal commandData
   ∧ js_in "target" commandData = Normal true
   ∧ to_string_opt (get_field "target" commandData) = Normal "ZZ:ZZ"
   ∧ to_string_opt (get_field "params" commandData) = Normal "undefined"
   ∧ in_furbies "ZZ:ZZ" registry_ab = false)
  ∧ end_calls (response_of (serve_sample req) registry_ab)
    = [Some "error: could not find target"; Some "ok"]
  ∧ sent_body (response_of (serve_sample req) registry_ab)
    = Some "error: could not find target"
  ∧ executions (effects_of (serve_sample req) registry_ab) = [].
Proof.
  intros req commandData.
  assert (query_of (url req) !! 0 = Some "cmd") as H1 by reflexivity.
  assert (method req = "POST") as H2 by reflexivity.
  assert (parse_fragment (body_of req) = Normal commandData) as H3
    by reflexivity.
  assert (js_in "target" commandData = Normal true) as H4 by reflexivity.
  assert (to_string_opt (get_field "target" commandData) = Normal "ZZ:ZZ")
    as H5 by reflexivity.
  assert (to_string_opt (get_field "params" commandData) = Normal "undefined")
    as H6 by reflexivity.
  assert (in_furbies "ZZ:ZZ" registry_ab = false) as H7 by reflexivity.
  split; [done|].
  exact (absent_target_ends_twice "[]" parse_fragment req commandData
           "ZZ:ZZ" "undefined" registry_ab H1 H2 H3 H4 H5 H6 H7).
Defined.

(** C10 as stated fails: the target [toString] is in no registry, yet
    [furbyId in furbies] holds for it; the call of [do] on the inherited
    method throws, and the only [res.end] is the one of the [catch]
    clause. *)
Lemma inherited_target_ends_once :
  let req := post "/cmd/feed" (body_target "toString") in
  parse_fragment (body_of req) = Normal (JObject [("target", JString "toString")])
  ∧ furbies (init (Fluff:=nat) (Commands:=nat)) !! "toString" = None
  ∧ end_calls (response_of (serve_sample req) init)
    = [Some "error: TypeError: furbies[furbyId].do is not a function"]
  ∧ end_calls (response_of (serve_sample req) init)
    ≠ [Some "error: could not find target"; Some "ok"].
Proof. by vm_compute. Qed.

(** C2 at the request [POST /cmd/feed] with body [{"target":"constructor"}]
    and the registry of scenario C: no device is registered under that
    target, but the caller is told of a TypeError and not that the target
    could not be found.  Nothing is executed. *)
Theorem inherited_target_not_reported_missing :
  let req := post "/cmd/feed" (body_target "constructor") in
  parse_fragment (body_of req)
  = Normal (JObject [("target", JString "constructor")])
  ∧ furbies registry_ab !! "constructor" = None
  ∧ sent_body (response_of (serve_sample req) registry_ab)
    = Some "error: TypeError: furbies[furbyId].do is not a function"
  ∧ sent_body (response_of (serve_sample req) registry_ab)
    ≠ Some "error: could not find target"
  ∧ executions (effects_of (serve_sample req) registry_ab) = [].
Proof. by vm_compute. Qed.

(** C4 at the request [POST /cmd/feed] with body
    [{"target":"AA:BB","params":{"toString":1}}] and the registry of
    scenario B: the target is registered, but rendering the params for the
    log line throws before the lookup; the response is an error and nothing
    is executed. *)
Theorem unprintable_params_block_target :
  let req := post "/cmd/feed"
               (body_target_params "AA:BB" ("{" +:+ quoted "toString" +:+ ":1}")) in
  furbies registry_ab_cd !! "AA:BB" = Some session_ab
  ∧ parse_fragment (body_of req)
    = Normal (JObject [("target", JString "AA:BB");
                       ("params", JObject [("toString", JNumber "1")])])
  ∧ sent_body (response_of (serve_sample req) registry_ab_cd)
    = Some "error: TypeError: Cannot convert object to primitive value"
  ∧ executions (effects_of (serve_sample req) registry_ab_cd) = [].
Proof. by vm_compute. Qed.

(** Scenario D *)
Lemma refused_body_witness :
  let req := post "/cmd/feed" "{target:" in
  (query_of (url req) !! 0 = Some "cmd"
   ∧ method req = "POST"
   ∧ refused_or_primitive parse_fragment (body_of req))
  ∧ sent_body (response_of (serve_sample req) registry_ab)
    = Some "error: SyntaxError: Unexpected token in JSON"
  ∧ executions (effects_of (serve_sample req) registry_ab) = []
  ∧ furbies_after (serve_sample req) registry_ab = furbies registry_ab.
Proof.
  intros req.
  assert (query_of (url req) !! 0 = Some "cmd") as H1 by reflexivity.
  assert (method req = "POST") as H2 by reflexivity.
  assert (refused_or_primitive parse_fragment (body_of req)) as H3 by exact I.
  split; [done|].
  destruct (refused_or_primitive_body_is_refused "[]" parse_fragment req
              registry_ab
              H1 H2 H3) as (_ & _ & Hex & Hreg).
  split; [reflexivity | split; [exact Hex | exact Hreg]].
Defined.

(** C5 as stated fails: the body [[]] is valid JSON but no object with a
    target or params; yet it is not answered with an error.  The handler
    takes the array for a command without target, executes it on the
    registered session and answers "ok". *)
Lemma array_body_is_dispatched :
  let req := post "/cmd/feed" "[]" in
  parse_fragment (body_of req) = Normal (JArray [])
  ∧ not_a_command_object parse_fragment (body_of req)
  ∧ sent_body (response_of (serve_sample req) registry_ab) = Some "ok"
  ∧ String.prefix "error:" "ok" = false
  ∧ executions (effects_of (serve_sample req) registry_ab)
    = [(session_ab, "feed", None)].
Proof. by vm_compute. Qed.

(** C1 as stated fails: after its link dropped, a peripheral is still in
    the registry. *)
Lemma disconnected_entry_stays :
  let evs := [StateChange "poweredOn"; Discovered furby_ab;
              ConnectSucceeded furby_ab 1; Disconnected "AA:BB"] in
  furbies (run_normal evs init) !! "AA:BB" = Some session_ab
  ∧ ("AA:BB" ∉ live_after evs ∅)
  ∧ ¬ (dom (furbies (run_normal evs init)) ⊆ live_after evs ∅).
Proof.
  intros evs.
  assert (furbies (run_normal evs init) !! "AA:BB" = Some session_ab) as Hin
    by reflexivity.
  assert ("AA:BB" ∉ live_after evs ∅) as Hout by (simpl; set_solver).
  split_and!; [done | done |].
  intros Hsub. apply Hout, Hsub, elem_of_dom. by rewrite Hin.
Qed.

Lemma registry_witness :
  let evs := [StateChange "poweredOn"; Discovered furby_ab;
              ConnectSucceeded furby_ab 1; Disconnected "AA:BB"] in
  "AA:BB" ∈ dom (furbies (run_normal evs init))
  ∧ (∃ p fluff, ConnectSucceeded p fluff ∈ evs ∧ uuid p = "AA:BB")
  ∧ furbies (step 0 "[]" parse_fragment None (Disconnected "AA:BB")
               (run_normal evs init))
    = furbies (run_normal evs init).
Proof.
  intros evs.
  assert ("AA:BB" ∈ dom (furbies (run_normal evs init))) as Hin.
  { apply elem_of_dom. by eexists. }
  destruct (registry_changes_only_by_connect_insert
              (Fluff:=nat) (Commands:=nat) 0 "[]" parse_fragment None)
    as (_ & Horigin & Hdisc & _ & _).
  split_and!; [done | by apply Horigin | apply Hdisc].
Defined.

Lemma reconnect_witness :
  let s1 := exec (connect_callback 0 furby_ab 1) init in
  let s2 := exec (connect_callback 0 furby_ab 2) s1 in
  uuid furby_ab = uuid furby_ab
  ∧ furbies s2 !! "AA:BB" = Some (Furby_learn 0 (Furby_new 1 "AA:BB" 2))
  ∧ ∀ k, furbies s2 !! k ≠ Some session_ab.
Proof.
  intros s1 s2.
  destruct (reconnect_overwrites (Fluff:=nat) (Commands:=nat) 0 "[]"
              parse_fragment None [] [] furby_ab 1 furby_ab 2 eq_refl)
    as (_ & Hget & _ & _ & Hgone & _).
  split_and!; [done | exact Hget | exact Hgone].
Defined.

Lemma introspect_witness :
  let pre := [StateChange "poweredOn"; HttpEnd (post "/cmd/wiggle" "{}")] in
  let later := [Discovered furby_cd; ConnectSucceeded furby_cd 1] in
  (Some "introspect" = Some "introspect"
   ∧ Forall (λ e, matching (Fluff:=nat) e = false) pre
   ∧ localName furby_ab = Some "Furby")
  ∧ exited (run_introspect (pre ++ [Discovered furby_ab]) init) = true
  ∧ run_introspect (pre ++ Discovered furby_ab :: later) init
    = run_introspect (pre ++ [Discovered furby_ab]) init
  ∧ furbies (run_introspect (pre ++ Discovered furby_ab :: later) init) = ∅.
Proof.
  intros pre later.
  assert (Forall (λ e, matching (Fluff:=nat) e = false) pre) as Hpre
    by (repeat constructor).
  split; [done|].
  destruct (introspect_mode_short_circuits (Fluff:=nat) (Commands:=nat)
              0 "[]" parse_fragment (Some "introspect") pre furby_ab later
              eq_refl Hpre eq_refl) as (_ & Hexit & Hstop & Hidle).
  split_and!; [exact Hexit | exact Hstop | apply Hidle].
Defined.

(** ** More runs *)

Lemma query_of_segments_witness :
  (slashless "cmd" = true ∧ slashless "feed" = true)
  ∧ query_of "/cmd/feed/x/y" = ["cmd"; "feed"; "x/y"].
Proof.
  split; [done|].
  exact (proj2 (proj2 (query_of_segments "cmd" "feed" "x/y" eq_refl eq_refl))).
Defined.

Lemma error_answer_witness :
  let req := post "/cmd/feed" "{target:" in
  let body := "error: SyntaxError: Unexpected token in JSON" in
  (sent_body (response_of (serve_sample req) registry_ab) = Some body
   ∧ String.prefix "error:" body = true)
  ∧ executions (effects_of (serve_sample req) registry_ab) = [].
Proof.
  intros req body. split; [done|].
  exact (error_answer_means_nothing_executed "[]" parse_fragment req
           registry_ab body eq_refl eq_refl).
Defined.

Lemma other_requests_witness :
  let req := {| url := "/list"; method := "GET"; chunks := [] |} in
  (¬ (query_of (url req) !! 0 = Some "cmd" ∧ method req = "POST")
   ∧ query_of (url req) !! 0 ≠ Some "scan")
  ∧ effects_of (serve_sample req) registry_ab = []
  ∧ end_calls (response_of (serve_sample req) registry_ab) = [Some "[]"].
Proof.
  intros req.
  assert (¬ (query_of (url req) !! 0 = Some "cmd" ∧ method req = "POST"))
    as H1 by (by intros [_ ?]).
  assert (query_of (url req) !! 0 ≠ Some "scan") as H2 by done.
  split; [done|].
  destruct (other_requests_have_no_effect "[]" parse_fragment req
              registry_ab H1 H2) as (Heff & _ & Hend).
  split; [exact Heff | exact Hend].
Defined.

Lemma targeted_command_witness :
  let req := post "/cmd/feed" (body_target_params "AA:BB" "[1,2]") in
  let params := JArray [JNumber "1"; JNumber "2"] in
  let commandData :=
    JObject [("target", JString "AA:BB"); ("params", params)] in
  (query_of (url req) !! 0 = Some "cmd"
   ∧ method req = "POST"
   ∧ parse_fragment (body_of req) = Normal commandData
   ∧ js_in "target" commandData = Normal true
   ∧ to_string_opt (get_field "target" commandData) = Normal "AA:BB"
   ∧ to_string_opt (get_field "params" commandData) = Normal "1,2"
   ∧ furbies registry_ab_cd !! "AA:BB" = Some session_ab)
  ∧ executions (effects_of (serve_sample req) registry_ab_cd)
    = [(session_ab, "feed", Some params)]
  ∧ end_calls (response_of (serve_sample req) registry_ab_cd) = [Some "ok"].
Proof.
  intros req params commandData. split; [done|].
  destruct (targeted_command_reaches_target_only "[]" parse_fragment req
              commandData "AA:BB" "1,2" session_ab registry_ab_cd
              eq_refl eq_refl eq_refl eq_refl eq_refl eq_refl eq_refl)
    as (Hex & Hend & _).
  split; [exact Hex | exact Hend].
Defined.

Lemma inherited_name_witness :
  let req := post "/cmd/feed" (body_target "hasOwnProperty") in
  let commandData := JObject [("target", JString "hasOwnProperty")] in
  (query_of (url req) !! 0 = Some "cmd"
   ∧ method req = "POST"
   ∧ parse_fragment (body_of req) = Normal commandData
   ∧ js_in "target" commandData = Normal true
   ∧ to_string_opt (get_field "target" commandData) = Normal "hasOwnProperty"
   ∧ to_string_opt (get_field "params" commandData) = Normal "undefined"
   ∧ furbies registry_ab !! "hasOwnProperty" = None
   ∧ inherited "hasOwnProperty" = true)
  ∧ end_calls (response_of (serve_sample req) registry_ab)
    = [Some "error: TypeError: furbies[furbyId].do is not a function"]
  ∧ executions (effects_of (serve_sample req) registry_ab) = [].
Proof.
  intros req commandData. split; [done|].
  exact (inherited_name_is_answered_with_type_error "[]" parse_fragment req
           commandData "hasOwnProperty" "undefined" registry_ab
           eq_refl eq_refl eq_refl eq_refl eq_refl eq_refl eq_refl eq_refl).
Defined.

Lemma unprintable_request_witness :
  let req := post "/cmd/feed"
               (body_target_params "AA:BB"
                  ("{" +:+ quoted "toString" +:+ ":1}")) in
  let commandData :=
    JObject [("target", JString "AA:BB");
             ("params", JObject [("toString", JNumber "1")])] in
  let e := TypeError "Cannot convert object to primitive value" in
  (query_of (url req) !! 0 = Some "cmd"
   ∧ method req = "POST"
   ∧ parse_fragment (body_of req) = Normal commandData
   ∧ js_in "target" commandData = Normal true
   ∧ (to_string_opt (get_field "target" commandData) = Throw e
      ∨ (∃ id, to_string_opt (get_field "target" commandData) = Normal id)
        ∧ to_string_opt (get_field "params" commandData) = Throw e))
  ∧ end_calls (response_of (serve_sample req) registry_ab_cd)
    = [Some "error: TypeError: Cannot convert object to primitive value"]
  ∧ executions (effects_of (serve_sample req) registry_ab_cd) = [].
Proof.
  intros req commandData e.
  assert (to_string_opt (get_field "target" commandData) = Throw e
          ∨ (∃ id, to_string_opt (get_field "target" commandData) = Normal id)
            ∧ to_string_opt (get_field "params" commandData) = Throw e) as H5.
  { right. split; [by exists "AA:BB" | done]. }
  split; [done|].
  destruct (unprintable_request_is_refused "[]" parse_fragment req
              commandData e registry_ab_cd eq_refl eq_refl eq_refl eq_refl H5)
    as (Hend & Hex & _).
  split; [exact Hend | exact Hex].
Defined.

Lemma registered_peripherals_witness :
  let evs := [Discovered furby_ab; ConnectSucceeded furby_ab 1;
              Disconnected "AA:BB"] in
  "AA:BB" ∈ dom (furbies (run_normal evs init))
  ∧ ∃ p fluff pre later,
      evs = pre ++ ConnectSucceeded p fluff :: later
      ∧ p ∈ furby_discoveries pre
      ∧ uuid p = "AA:BB".
Proof.
  intros evs.
  assert ("AA:BB" ∈ dom (furbies (run_normal evs init))) as Hin.
  { apply elem_of_dom. by eexists. }
  split; [done|].
  exact (proj2 (registered_peripherals_were_discovered (Fluff:=nat)
                  (Commands:=nat) 0 "[]" parse_fragment None evs "AA:BB" Hin)).
Defined.

Lemma registry_entries_witness :
  furbies registry_ab_cd !! "CC:DD" = Some session_cd
  ∧ well_formed_entry 0 registry_ab_cd "CC:DD" session_cd.
Proof.
  split; [done|].
  exact (proj1 (registry_entries_are_well_formed (Fluff:=nat) (Commands:=nat)
                  0 "[]" parse_fragment None
                  [Discovered furby_ab; ConnectSucceeded furby_ab 1;
                   Discovered furby_cd; ConnectSucceeded furby_cd 2]
                  "CC:DD" session_cd eq_refl)).
Defined.

Lemma discovered_furby_witness :
  let req := post "/cmd/feed" (body_target "AA:BB") in
  let commandData := JObject [("target", JString "AA:BB")] in
  (None ≠ Some "introspect"
   ∧ exited (init (Fluff:=nat) (Commands:=nat)) = false
   ∧ localName furby_ab = Some "Furby"
   ∧ query_of (url req) !! 0 = Some "cmd"
   ∧ method req = "POST"
   ∧ parse_fragment (body_of req) = Normal commandData
   ∧ js_in "target" commandData = Normal true
   ∧ to_string_opt (get_field "target" commandData) = Normal (uuid furby_ab)
   ∧ to_string_opt (get_field "params" commandData) = Normal "undefined")
  ∧ ∃ furby,
      furbies (run_normal [Discovered furby_ab; ConnectSucceeded furby_ab 7]
                 init) !! "AA:BB" = Some furby
      ∧ furby_fluff furby = 7.
Proof.
  intros req commandData.
  assert (None ≠ Some "introspect") as Hmode by done.
  split; [done|].
  destruct (discovered_furby_takes_commands (Fluff:=nat) (Commands:=nat)
              0 "[]" parse_fragment None furby_ab 7 req commandData
              "undefined" init Hmode eq_refl eq_refl eq_refl eq_refl eq_refl
              eq_refl eq_refl eq_refl) as (furby & Hf & Hfl & _).
  by exists furby.
Defined.

Lemma normal_mode_witness :
  let evs := [StateChange "poweredOn"; Discovered furby_ab;
              ConnectSucceeded furby_ab 1; HttpEnd scan_request] in
  None ≠ Some "introspect"
  ∧ exited (run_normal evs init) = false.
Proof.
  intros evs.
  assert (None ≠ Some "introspect") as Hmode by done.
  split; [done|].
  exact (proj1 (normal_mode_never_introspects (Fluff:=nat) (Commands:=nat)
                  0 "[]" parse_fragment None evs Hmode)).
Defined.

Lemma scanning_witness :
  let evs := [StateChange "poweredOff"; HttpEnd scan_request;
              Discovered furby_ab; ConnectSucceeded furby_ab 1;
              StateChange "poweredOn"] in
  None ≠ Some "introspect"
  ∧ scan_commands (out (run_normal evs init)) = [false; true; true].
Proof.
  intros evs.
  assert (None ≠ Some "introspect") as Hmode by done.
  split; [done|].
  exact (scanning_follows_requests (Fluff:=nat) (Commands:=nat)
           0 "[]" parse_fragment None evs Hmode).
Defined.

Lemma entry_stays_witness :
  let evs := [Disconnected "AA:BB"; Discovered furby_cd;
              ConnectSucceeded furby_cd 9;
              HttpEnd (post "/cmd/feed" (body_target "AA:BB"))] in
  (furbies registry_ab_cd !! "AA:BB" = Some session_ab
   ∧ Forall (λ e, connects_for (Fluff:=nat) "AA:BB" e = false) evs)
  ∧ furbies (run_normal evs registry_ab_cd) !! "AA:BB" = Some session_ab.
Proof.
  intros evs.
  assert (Forall (λ e, connects_for (Fluff:=nat) "AA:BB" e = false) evs)
    as Hevs by (repeat constructor).
  split; [done|].
  exact (entry_stays_until_reconnect (Fluff:=nat) (Commands:=nat)
           0 "[]" parse_fragment None evs registry_ab_cd "AA:BB" session_ab
           eq_refl Hevs).
Defined.

Lemma array_body_witness :
  let req := post "/cmd/feed" "[1, 2]" in
  (query_of (url req) !! 0 = Some "cmd"
   ∧ method req = "POST"
   ∧ parse_fragment (body_of req) = Normal (JArray [JNumber "1"; JNumber "2"]))
  ∧ executions (effects_of (serve_sample req) registry_ab_cd)
    ≡ₚ [(session_ab, "feed", None); (session_cd, "feed", None)].
Proof.
  intros req. split; [done|].
  destruct (array_body_reaches_every_session "[]" parse_fragment req
              [JNumber "1"; JNumber "2"] registry_ab_cd eq_refl eq_refl eq_refl)
    as (Hperm & _).
  etrans; [exact Hperm|].
  etrans; [apply fmap_Permutation, registry_ab_cd_entries|]. done.
Defined.

End Fluffd.
